(** * ccc_example.py: port bounce through the Catalyst Center API

    A shallow embedding of [src/ccc_example.py].  The script talks to the
    controller through one [requests] session and contains a poll loop
    with no bound on its iterations, so every function of the script is
    an interaction tree over the three things it does to the outside
    world: [s.get], [s.put] and [sleep].  Python exceptions are values of
    [py_exn] returned on the left of a sum.  What the controller answers
    is recorded, together with the request, in the trace of a finished
    run ([exec]).  The headers the session carries (the token of
    [auth_session]) are left out: nothing below depends on the headers
    of a request.  [auth_session] itself makes its one call outside the
    session and is modelled over an event of its own. *)

From Stdlib Require Import ZArith String List Floats.
From stdpp Require Import base gmap strings.
From ITree Require Import ITree Eq.Shallow.
Import ListNotations.

Set Warnings "-register-all".
Set Default Proof Using "Type".
Local Open Scope string_scope.
Local Open Scope list_scope.
Local Open Scope Z_scope.

(** ** Python objects decoded from a JSON body *)

Module Py.

(** What [r.json()] can produce: [None], [bool], [int], [float], [str],
    [list] and [dict] with [str] keys. *)
Inductive value : Type :=
| VNone
| VBool (b : bool)
| VInt (n : Z)
| VFloat (f : float)
| VStr (s : string)
| VList (l : list value)
| VDict (m : gmap string value).

(** A [requests.Response], as far as the script looks at it. *)
Record Response : Type := mkResponse {
  status_code : Z;
  text : string;
  body : option value   (* what [r.json()] decodes, [None] if it cannot *)
}.

(** The exceptions the script can meet.  [RequestException] stands for
    the failures [requests] raises from [s.get]/[s.put] themselves
    (connection errors, timeouts); [HTTPError] is the one
    [raise_for_status] raises and carries the response. *)
Inductive py_exn : Type :=
| Exception (msg : string)
| KeyError
| IndexError
| TypeError
| AttributeError
| UnboundLocalError (name : string)
| JSONDecodeError
| HTTPError (response : Response)
| RequestException.

Definition result (A : Type) : Type := py_exn + A.

(** [bool(v)], as used by [not v]. *)
Definition truthy (v : value) : bool :=
  match v with
  | VNone => false
  | VBool b => b
  | VInt n => negb (n =? 0)
  | VFloat f => negb (PrimFloat.eqb f 0%float)
  | VStr s => match s with EmptyString => false | String _ _ => true end
  | VList l => match l with [] => false | _ :: _ => true end
  | VDict m => negb (Nat.eqb (size m) 0)
  end.

(** [v == "literal"]. *)
Definition eq_str (v : value) (lit : string) : bool :=
  match v with
  | VStr s => String.eqb s lit
  | _ => false
  end.

(** [v != "literal"]. *)
Definition ne_str (v : value) (lit : string) : bool := negb (eq_str v lit).

(** [v[key]] with a [str] key. *)
Definition getitem (v : value) (key : string) : result value :=
  match v with
  | VDict m => match m !! key with Some x => inr x | None => inl KeyError end
  | _ => inl TypeError
  end.

(** [v[i]] with a non-negative [int] literal.  The keys of a decoded
    [dict] are all [str], so an [int] key is never found. *)
Definition getindex (v : value) (i : nat) : result value :=
  match v with
  | VList l => match l !! i with Some x => inr x | None => inl IndexError end
  | VStr s => match String.get i s with
              | Some c => inr (VStr (String c EmptyString))
              | None => inl IndexError
              end
  | VDict _ => inl KeyError
  | _ => inl TypeError
  end.

(** [v.get(key, default)]: only [dict] has the method. *)
Definition get (v : value) (key : string) (default : value) : result value :=
  match v with
  | VDict m => inr (match m !! key with Some x => x | None => default end)
  | _ => inl AttributeError
  end.

(** [len(v)]. *)
Definition len (v : value) : result nat :=
  match v with
  | VList l => inr (List.length l)
  | VDict m => inr (size m)
  | VStr s => inr (String.length s)
  | _ => inl TypeError
  end.

(** Reading a local that an [except: pass] may have left unassigned. *)
Definition read_local (name : string) (slot : option value) : result value :=
  match slot with
  | Some v => inr v
  | None => inl (UnboundLocalError name)
  end.

(** [needle in hay] on [str]. *)
Fixpoint contains (needle hay : string) : bool :=
  String.prefix needle hay
  || match hay with
     | EmptyString => false
     | String _ hay' => contains needle hay'
     end.

(** The empty [dict] literal [{}] used as a default. *)
Definition empty_dict : value := VDict ∅.

End Py.

Import Py.

(** ** The session: requests, answers and the trace of a run *)

(** [s.get], [s.put] and [sleep].  The answer of a request is the response,
    or [None] when [requests] raised instead of returning one. *)
Variant ccE : Type -> Type :=
| SGet (url : string) : ccE (option Response)
| SPut (url : string) (json : value) : ccE (option Response)
| Sleep (secs : Z) : ccE unit.

(** One entry of a trace: a call and what came back. *)
Variant io : Type :=
| IoGet (url : string) (ans : option Response)
| IoPut (url : string) (json : value) (ans : option Response)
| IoSleep (secs : Z).

(** A program of the script: a tree that ends in an exception or a value. *)
Definition prog (A : Type) : Type := itree ccE (result A).

Definition ret {A} (a : A) : prog A := Ret (inr a).
Definition raise {A} (e : py_exn) : prog A := Ret (inl e).
Definition lift {A} (x : result A) : prog A := Ret x.

Definition bind {A B} (m : prog A) (k : A -> prog B) : prog B :=
  ITree.bind m (fun x => match x with
                         | inl e => Ret (inl e)
                         | inr a => k a
                         end).

Declare Scope py_scope.
Delimit Scope py_scope with py.
Notation "x <- m ;; k" := (bind m (fun x => k))
  (at level 100, m at next level, k at level 200, right associativity) : py_scope.
Notation "m ;; k" := (bind m (fun _ => k))
  (at level 100, k at level 200, right associativity) : py_scope.
Local Open Scope py_scope.

(** [try: body except <classes>: handler]: [handler e] is [None] for an
    exception the clause does not name, which then propagates. *)
Definition try_except {A} (body : prog A) (handler : py_exn -> option (prog A))
  : prog A :=
  ITree.bind body (fun x => match x with
                            | inl e => match handler e with
                                       | Some h => h
                                       | None => Ret (inl e)
                                       end
                            | inr a => Ret (inr a)
                            end).

(** How one turn of a [while True] body ends. *)
Variant loop_exit : Type := Continue | Break.

(** One turn: [inl tt] to go round again, [inr] to leave the loop. *)
Definition loop_step (body : prog loop_exit) : unit -> itree ccE (unit + result unit) :=
  fun _ : unit =>
    ITree.bind body (fun x => match x with
                              | inl e => Ret (inr (inl e))
                              | inr Continue => Ret (inl tt)
                              | inr Break => Ret (inr (inr tt))
                              end).

Definition while_True (body : prog loop_exit) : prog unit :=
  ITree.iter (loop_step body) tt.

(** What [ITree.iter] does with the outcome of a turn. *)
Definition loop_again (body : prog loop_exit)
  : unit + result unit -> itree ccE (result unit) :=
  fun lr => match lr with
            | inl l => Tau (ITree.iter (loop_step body) l)
            | inr r => Ret r
            end.

(** What a call of the session gives the script: the response, or the
    exception [requests] raised. *)
Definition answered (ans : option Response) : result Response :=
  match ans with
  | Some r => inr r
  | None => inl RequestException
  end.

(** [r = s.get(url=url)] and [r = s.put(url=url, json=json)]. *)
Definition s_get (url : string) : prog Response :=
  ITree.bind (ITree.trigger (SGet url)) (fun ans => Ret (answered ans)).

Definition s_put (url : string) (json : value) : prog Response :=
  ITree.bind (ITree.trigger (SPut url json)) (fun ans => Ret (answered ans)).

Definition sleep (secs : Z) : prog unit :=
  ITree.bind (ITree.trigger (Sleep secs)) (fun _ => Ret (inr tt)).

(** [r.raise_for_status()] of [requests]: statuses 400 to 599 raise. *)
Definition is_http_error (r : Response) : bool :=
  (400 <=? status_code r) && (status_code r <? 600).

Definition raise_for_status (r : Response) : prog unit :=
  if is_http_error r then raise (HTTPError r) else ret tt.

(** [r.json()]. *)
Definition json (r : Response) : prog value :=
  match body r with
  | Some v => ret v
  | None => raise JSONDecodeError
  end.

(** Finished runs: [exec t tr x] when [t] can make the calls of [tr], get
    the answers recorded there, and end with [x]. *)
Inductive execF {R : Type} : itree' ccE R -> list io -> R -> Prop :=
| exec_ret x : execF (RetF x) [] x
| exec_tau t tr x : execF (observe t) tr x -> execF (TauF t) tr x
| exec_get url k ans tr x :
    execF (observe (k ans)) tr x ->
    execF (VisF (SGet url) k) (IoGet url ans :: tr) x
| exec_put url js k ans tr x :
    execF (observe (k ans)) tr x ->
    execF (VisF (SPut url js) k) (IoPut url js ans :: tr) x
| exec_sleep secs k tr x :
    execF (observe (k tt)) tr x ->
    execF (VisF (Sleep secs) k) (IoSleep secs :: tr) x.

Definition exec {R : Type} (t : itree ccE R) (tr : list io) (x : R) : Prop :=
  execF (observe t) tr x.

(** The runs of a [while True]: turns that end in [continue], then one
    that ends in [break] or raises. *)
Inductive loop_run (body : prog loop_exit) : list io -> result unit -> Prop :=
| loop_raise tr e : exec body tr (inl e) -> loop_run body tr (inl e)
| loop_break tr : exec body tr (inr Break) -> loop_run body tr (inr tt)
| loop_continue tr1 tr2 x :
    exec body tr1 (inr Continue) -> loop_run body tr2 x ->
    loop_run body (tr1 ++ tr2) x.

(** Two programs with the same finished runs. *)
Definition same_runs {A : Type} (t u : prog A) : Prop :=
  forall tr x, exec t tr x <-> exec u tr x.

(** The answers of a trace, in order. *)
Definition answers (tr : list io) : list (option Response) :=
  flat_map (fun ev => match ev with
                      | IoGet _ ans => [ans]
                      | IoPut _ _ ans => [ans]
                      | IoSleep _ => []
                      end) tr.

(** The PUT requests of a trace, in order: url and JSON payload. *)
Definition puts (tr : list io) : list (string * value) :=
  flat_map (fun ev => match ev with
                      | IoPut url js _ => [(url, js)]
                      | _ => []
                      end) tr.

(** Two [VisF] nodes that are equal make the same call and continue alike. *)
Ltac same_vis H :=
  let p := fresh "p" in
  let He := fresh "He" in
  let Hk := fresh "Hk" in
  apply eq_inv_VisF_weak in H; destruct H as [p [He Hk]];
  destruct p; cbn in He, Hk; subst.

(** Running a program on a trace of sample responses, call by call. *)
Ltac run_trace :=
  unfold exec;
  repeat (vm_compute;
          first [apply exec_ret | apply exec_tau | apply exec_get
                | apply exec_put | apply exec_sleep]).

(** ** The script *)

Section Script.

(** [CCC_URL] comes from the environment. *)
Variable CCC_URL : string.

(** [str(v)] for an object that is not a [str], as an f-string formats
    it; the script only ever builds URLs with it. *)
Variable py_repr : value -> string.

Definition format (v : value) : string :=
  match v with
  | VStr s => s
  | _ => py_repr v
  end.

Definition resolution_failed : py_exn :=
  Exception "Unable to get parent device UUID from client details".

Definition get_client_details (mac_address : string) : prog (value * value) :=
  let query := "?macAddress=" +:+ mac_address in
  let url := CCC_URL +:+ "/dna/intent/api/v1/client-detail" +:+ query in
  r <- s_get url ;;
  raise_for_status r ;;
  (if String.eqb (text r) "" then raise (Exception "Empty Response from the server.")
   else ret tt) ;;
  json_resp <- json r ;;
  detail <- lift (getitem json_resp "detail") ;;
  interface_name <- lift (getitem detail "port") ;;
  slot <- try_except
            (d <- lift (get json_resp "detail" empty_dict) ;;
             cd <- lift (get d "connectedDevice" empty_dict) ;;
             first <- lift (getindex cd 0) ;;
             id <- lift (getitem first "id") ;;
             ret (Some id))
            (fun e => match e with
                      | KeyError => Some (ret None)
                      | _ => None
                      end) ;;
  parent_device_uuid <- lift (read_local "parent_device_uuid" slot) ;;
  if negb (truthy parent_device_uuid) then
    parent_device_uuid <-
      try_except
        (topology <- lift (get json_resp "topology" empty_dict) ;;
         nodes <- lift (get topology "nodes" empty_dict) ;;
         n <- lift (len nodes) ;;
         (if (n <=? 1)%nat then raise resolution_failed else ret tt) ;;
         node <- lift (getindex nodes 1) ;;
         lift (get node "id" empty_dict))
        (fun e => match e with
                  | KeyError | IndexError => Some (raise resolution_failed)
                  | _ => None
                  end) ;;
    ret (interface_name, parent_device_uuid)
  else
    ret (interface_name, parent_device_uuid).

Definition get_interface_details (parent_device_uuid interface_name : value)
  : prog (value * value) :=
  let query := "?name=" +:+ format interface_name in
  let url := CCC_URL +:+ "/dna/intent/api/v1/interface/network-device/"
             +:+ format parent_device_uuid +:+ "/interface-name" +:+ query in
  r <- s_get url ;;
  raise_for_status r ;;
  (if String.eqb (text r) "" then raise (Exception "Empty Response from the server.")
   else ret tt) ;;
  json_resp <- json r ;;
  response <- lift (get json_resp "response" empty_dict) ;;
  interface_uuid <- lift (get response "id" empty_dict) ;;
  response' <- lift (get json_resp "response" empty_dict) ;;
  current_interface_status <- lift (get response' "adminStatus" empty_dict) ;;
  if negb (truthy interface_uuid) || negb (truthy current_interface_status) then
    raise (Exception "Unable to locate interface details of either: UUID or status")
  else
    ret (interface_uuid, current_interface_status).

Definition lookup_task (task_id : value) : prog value :=
  let url := CCC_URL +:+ "/dna/intent/api/v1/tasks/" +:+ format task_id in
  r <- s_get url ;;
  raise_for_status r ;;
  (if String.eqb (text r) "" then raise (Exception "Empty Response from the server.")
   else ret tt) ;;
  json r.

(** [task_details["response"]["status"]] and [resp1["response"]["taskId"]]. *)
Definition task_status (task_details : value) : result value :=
  match getitem task_details "response" with
  | inr response => getitem response "status"
  | inl e => inl e
  end.

Definition task_id_of (resp1 : value) : result value :=
  match getitem resp1 "response" with
  | inr response => getitem response "taskId"
  | inl e => inl e
  end.

Definition admin_status (st : string) : value :=
  VDict {[ "adminStatus" := VStr st ]}.

Definition task_failed : py_exn := Exception "Interface update task failed".

(** One turn of the [while True] of the ["DOWN"] branch (lines 170-178). *)
Definition poll_DOWN_turn (resp1 : value) : prog loop_exit :=
  task_id <- lift (task_id_of resp1) ;;
  task_details <- lookup_task task_id ;;
  st <- lift (task_status task_details) ;;
  if eq_str st "PENDING" then
    sleep 1 ;; ret Continue
  else
    st <- lift (task_status task_details) ;;
    if eq_str st "SUCCESS" then ret Break
    else
      st <- lift (task_status task_details) ;;
      if ne_str st "SUCCESS" then raise task_failed
      else ret Continue.

Definition poll_DOWN (resp1 : value) : prog unit :=
  while_True (poll_DOWN_turn resp1).

(** One turn of the [while True] of the ["UP"] branch (lines 185-193). *)
Definition poll_UP_turn (resp1 : value) : prog loop_exit :=
  task_id <- lift (task_id_of resp1) ;;
  task_details <- lookup_task task_id ;;
  st <- lift (task_status task_details) ;;
  if eq_str st "PENDING" then
    sleep 1 ;; ret Continue
  else
    st <- lift (task_status task_details) ;;
    if eq_str st "SUCCESS" then ret Break
    else raise task_failed.

Definition poll_UP (resp1 : value) : prog unit :=
  while_True (poll_UP_turn resp1).

(** The [url] of [interface_shut_no_shut] (lines 162-163). *)
Definition interface_url (interface_uuid : value) (mode : string) : string :=
  let query := "?deploymentMode=" +:+ mode in
  CCC_URL +:+ "/dna/intent/api/v1/interface/" +:+ format interface_uuid +:+ query.

(** The [try]/[except] around the second PUT of the ["UP"] branch
    (lines 194-204). *)
Definition restore_UP (url : string) : prog unit :=
  try_except
    (r2 <- s_put url (admin_status "UP") ;;
     raise_for_status r2 ;;
     (if String.eqb (text r2) "" then raise (Exception "Empty Response from the server.")
      else ret tt) ;;
     ret tt)
    (fun e => match e with
              | HTTPError response =>
                  Some (if contains "No change in setting" (text response)
                        then ret tt
                        else raise e)
              | _ => None
              end).

Definition interface_shut_no_shut
    (interface_uuid current_interface_status : value) (mode : string) : prog unit :=
  let url := interface_url interface_uuid mode in
  if eq_str current_interface_status "DOWN" then
    r1 <- s_put url (admin_status "UP") ;;
    raise_for_status r1 ;;
    (if String.eqb (text r1) "" then raise (Exception "Empty Response from the server.")
     else ret tt) ;;
    resp1 <- json r1 ;;
    poll_DOWN resp1 ;;
    ret tt
  else if eq_str current_interface_status "UP" then
    r1 <- s_put url (admin_status "DOWN") ;;
    raise_for_status r1 ;;
    (if String.eqb (text r1) "" then raise (Exception "Empty Response from the server.")
     else ret tt) ;;
    resp1 <- json r1 ;;
    poll_UP resp1 ;;
    restore_UP url
  else
    ret tt.

(** [mode] is accepted and not handed on: the call below leaves
    [interface_shut_no_shut] its default ["Deploy"]. *)
Definition port_bounce (mac_address : string) (mode : string) : prog unit :=
  client <- get_client_details mac_address ;;
  let '(interface_name, parent_device_uuid) := client in
  interface <- get_interface_details parent_device_uuid interface_name ;;
  let '(interface_uuid, current_interface_status) := interface in
  interface_shut_no_shut interface_uuid current_interface_status "Deploy" ;;
  ret tt.

Definition main : prog unit :=
  let mac_address := "00:A2:89:AA:AA:AA" in
  port_bounce mac_address "Deploy".

(** ** Vocabulary of the statements *)

(** The URLs the two resolvers and [lookup_task] build. *)
Definition client_url (mac_address : string) : string :=
  CCC_URL +:+ "/dna/intent/api/v1/client-detail" +:+ "?macAddress=" +:+ mac_address.

Definition interface_name_url (parent_device_uuid interface_name : value) : string :=
  CCC_URL +:+ "/dna/intent/api/v1/interface/network-device/"
  +:+ format parent_device_uuid +:+ "/interface-name" +:+ "?name=" +:+ format interface_name.

Definition task_url (task_id : value) : string :=
  CCC_URL +:+ "/dna/intent/api/v1/tasks/" +:+ format task_id.

(** [r] passes [raise_for_status], has a body, and the body decodes to [j]. *)
Definition accepted (r : Response) (j : value) : Prop :=
  is_http_error r = false /\ text r <> "" /\ body r = Some j.

(** [r] is such a reply to a task lookup, reporting status [st]. *)
Definition task_reply (r : Response) (st : value) : Prop :=
  exists j, accepted r j /\ task_status j = inr st.

(** The calls of a poll loop that saw [pending] and then [last]: a lookup
    and a one-second sleep for each pending reply, then the last lookup. *)
Definition poll_trace (url : string) (pending : list Response) (last : Response)
  : list io :=
  flat_map (fun r => [IoGet url (Some r); IoSleep 1]) pending
  ++ [IoGet url (Some last)].

(** The sleeps of a trace. *)
Definition sleeps (tr : list io) : list Z :=
  flat_map (fun ev => match ev with
                      | IoSleep secs => [secs]
                      | _ => []
                      end) tr.

(** What the four lines after a request make of its answer: the checks
    of [raise_for_status] and of the empty body, then [r.json()]. *)
Definition decoded (ans : option Response) : result value :=
  match ans with
  | None => inl RequestException
  | Some r =>
      if is_http_error r then inl (HTTPError r)
      else if String.eqb (text r) "" then inl (Exception "Empty Response from the server.")
      else match body r with
           | Some j => inr j
           | None => inl JSONDecodeError
           end
  end.

(** What one turn of either poll loop does, read off the answer [ans] to
    its lookup: the calls it makes and how it ends. *)
Definition turn_outcome (ans : option Response) : result loop_exit :=
  match decoded ans with
  | inl e => inl e
  | inr task_details =>
      match task_status task_details with
      | inl e => inl e
      | inr st =>
          if eq_str st "PENDING" then inr Continue
          else if eq_str st "SUCCESS" then inr Break
          else inl task_failed
      end
  end.

Definition turn_spec (resp1 : value) (tr : list io) (o : result loop_exit) : Prop :=
  match task_id_of resp1 with
  | inl e => tr = [] /\ o = inl e
  | inr task_id =>
      exists ans,
        o = turn_outcome ans /\
        tr = IoGet (task_url task_id) ans
             :: match o with
                | inr Continue => [IoSleep 1]
                | _ => []
                end
  end.

(** How the second PUT of the ["UP"] branch ends, read off its answer. *)
Definition restore_outcome (ans : option Response) : result unit :=
  match ans with
  | None => inl RequestException
  | Some r2 =>
      if is_http_error r2 then
        if contains "No change in setting" (text r2) then inr tt
        else inl (HTTPError r2)
      else if String.eqb (text r2) "" then inl (Exception "Empty Response from the server.")
      else inr tt
  end.

(** The answers to the second PUT after which the ["UP"] branch returns:
    a response that passes the two checks, or an HTTP error whose body
    has the tolerated message. *)
Definition restored (r2 : Response) : Prop :=
  (is_http_error r2 = false /\ text r2 <> "") \/
  (is_http_error r2 = true /\ contains "No change in setting" (text r2) = true).

(** A member of a decoded object that is there and not empty, as
    [not v] judges it. *)
Definition present (field : option value) : bool :=
  match field with
  | Some v => truthy v
  | None => false
  end.

Definition interface_not_located : py_exn :=
  Exception "Unable to locate interface details of either: UUID or status".

(** [r] with another decoded body. *)
Definition with_body (r : Response) (j : value) : Response :=
  mkResponse (status_code r) (text r) (Some j).

(** ** Sample responses of the controller *)

Definition ok_response (j : value) : Response := mkResponse 200 "<json>" (Some j).

Definition obj (members : list (string * value)) : value :=
  VDict (list_to_map members).

Definition two_nodes : value :=
  obj [("nodes", VList [obj [("id", VStr "client-uuid")];
                        obj [("id", VStr "switch-uuid")]])].

Definition one_node : value :=
  obj [("nodes", VList [obj [("id", VStr "client-uuid")]])].

(** No [connectedDevice] member at all. *)
Definition client_without_connected (topology : value) : Response :=
  ok_response (obj [("detail", obj [("port", VStr "GigabitEthernet1/0/3")]);
                    ("topology", topology)]).

(** A [connectedDevice] list with nothing in it. *)
Definition client_with_none_connected (topology : value) : Response :=
  ok_response (obj [("detail", obj [("port", VStr "GigabitEthernet1/0/3");
                                    ("connectedDevice", VList [])]);
                    ("topology", topology)]).

Definition client_connected : Response :=
  ok_response (obj [("detail", obj [("port", VStr "GigabitEthernet1/0/3");
                                    ("connectedDevice",
                                     VList [obj [("id", VStr "switch-uuid")]])]);
                    ("topology", two_nodes)]).

Definition interface_reply (status : string) : Response :=
  ok_response (obj [("response", obj [("id", VStr "if-uuid");
                                      ("adminStatus", VStr status)])]).

Definition put_reply : Response :=
  ok_response (obj [("response", obj [("taskId", VStr "task-1")])]).

Definition task_report (status : string) : Response :=
  ok_response (obj [("response", obj [("status", VStr status)])]).

(** The controller's answer when the interface already is as asked. *)
Definition no_change_reply : Response :=
  mkResponse 400 "Bad Request: No change in setting detected" None.

Definition demo_url : string := "https://ccc.example.net".

Definition demo_repr : value -> string := fun _ => "<object>".

(** The calls of [port_bounce] on the demonstration address when the
    controller reports the interface ["DOWN"]. *)
Definition demo_mac : string := "00:A2:89:AA:AA:AA".

Definition demo_trace : list io :=
  [IoGet (client_url demo_mac) (Some client_connected);
   IoGet (interface_name_url (VStr "switch-uuid") (VStr "GigabitEthernet1/0/3"))
         (Some (interface_reply "DOWN"));
   IoPut (interface_url (VStr "if-uuid") "Deploy") (admin_status "UP") (Some put_reply);
   IoGet (task_url (VStr "task-1")) (Some (task_report "SUCCESS"))].

(** ** The pure part of the two resolvers *)

(** Sequencing and [try]/[except] on results, for code that makes no call. *)
Definition and_then {A B} (x : result A) (f : A -> result B) : result B :=
  match x with
  | inl e => inl e
  | inr a => f a
  end.

Definition catch {A} (x : result A) (handler : py_exn -> option (result A))
  : result A :=
  match x with
  | inl e => match handler e with
             | Some y => y
             | None => inl e
             end
  | inr a => inr a
  end.

(** [t] makes no call and ends with [y]. *)
Definition pure_is {A} (t : prog A) (y : result A) : Prop :=
  forall tr x, exec t tr x <-> tr = [] /\ x = y.

(** Lines 82-85 of [get_client_details] on the decoded body: the first
    [try], leaving the local unassigned ([None]) on [KeyError]. *)
Definition primary_parent (json_resp : value) : result (option value) :=
  catch
    (and_then (get json_resp "detail" empty_dict) (fun d =>
     and_then (get d "connectedDevice" empty_dict) (fun cd =>
     and_then (getindex cd 0) (fun first =>
     and_then (getitem first "id") (fun id =>
     inr (Some id))))))
    (fun e => match e with
              | KeyError => Some (inr None)
              | _ => None
              end).

(** Lines 87-93: the fallback [try]. *)
Definition topology_parent (json_resp : value) : result value :=
  catch
    (and_then (get json_resp "topology" empty_dict) (fun topology =>
     and_then (get topology "nodes" empty_dict) (fun nodes =>
     and_then (len nodes) (fun n =>
     and_then (if (n <=? 1)%nat then inl resolution_failed else inr tt) (fun _ =>
     and_then (getindex nodes 1) (fun node =>
     get node "id" empty_dict))))))
    (fun e => match e with
              | KeyError | IndexError => Some (inl resolution_failed)
              | _ => None
              end).

(** Lines 81-94: what [get_client_details] makes of the decoded body. *)
Definition client_of_json (json_resp : value) : result (value * value) :=
  and_then (getitem json_resp "detail") (fun detail =>
  and_then (getitem detail "port") (fun interface_name =>
  and_then (primary_parent json_resp) (fun slot =>
  and_then (read_local "parent_device_uuid" slot) (fun parent_device_uuid =>
  if negb (truthy parent_device_uuid) then
    and_then (topology_parent json_resp) (fun parent_device_uuid =>
    inr (interface_name, parent_device_uuid))
  else
    inr (interface_name, parent_device_uuid))))).

(** Lines 119-123: what [get_interface_details] makes of the decoded body. *)
Definition interface_of_json (json_resp : value) : result (value * value) :=
  and_then (get json_resp "response" empty_dict) (fun response =>
  and_then (get response "id" empty_dict) (fun interface_uuid =>
  and_then (get json_resp "response" empty_dict) (fun response' =>
  and_then (get response' "adminStatus" empty_dict) (fun current_interface_status =>
  if negb (truthy interface_uuid) || negb (truthy current_interface_status) then
    inl interface_not_located
  else
    inr (interface_uuid, current_interface_status))))).

(** ** More vocabulary *)

(** How a run ends when the answer to its request does not pass the
    lines after the request: no answer, an HTTP error status, an empty
    body, a body that does not decode. *)
Definition request_checked {A} (ans : option Response) (x : result A) : Prop :=
  match ans with
  | None => x = inl RequestException
  | Some r =>
      (is_http_error r = true -> x = inl (HTTPError r)) /\
      (is_http_error r = false -> text r = "" ->
       x = inl (Exception "Empty Response from the server.")) /\
      (is_http_error r = false -> text r <> "" -> body r = None ->
       x = inl JSONDecodeError)
  end.

Definition is_dict (v : value) : bool :=
  match v with
  | VDict _ => true
  | _ => false
  end.

(** ** Obtaining the token *)

(** [CCC_UN] and [CCC_PW] come from the environment, like [CCC_URL]. *)
Variable CCC_UN : string.
Variable CCC_PW : string.

(** [requests.post(url=..., auth=(user, password), verify=False)]: a call
    outside the session, with HTTP basic authentication. *)
Variant authE : Type -> Type :=
| Post (url : string) (auth : string * string) : authE (option Response).

(** One entry of the trace of such calls. *)
Definition posted : Type := (string * (string * string) * option Response)%type.

Definition auth_session : itree authE (result value) :=
  let auth_url := CCC_URL +:+ "/dna/system/api/v1/auth/token" in
  ITree.bind (ITree.trigger (Post auth_url (CCC_UN, CCC_PW)))
    (fun ans => Ret (
       and_then (answered ans) (fun r =>
       and_then (if is_http_error r then inl (HTTPError r) else inr tt) (fun _ =>
       and_then (if String.eqb (text r) "" then inl (Exception "Unable to obtain token.")
                 else inr tt) (fun _ =>
       and_then (match body r with
                 | Some j => inr j
                 | None => inl JSONDecodeError
                 end) (fun j =>
       let token := getitem j "Token" in
       token)))))).

Inductive postedF {R : Type} : itree' authE R -> list posted -> R -> Prop :=
| posted_ret x : postedF (RetF x) [] x
| posted_tau t tr x : postedF (observe t) tr x -> postedF (TauF t) tr x
| posted_post url auth k ans tr x :
    postedF (observe (k ans)) tr x ->
    postedF (VisF (Post url auth) k) ((url, auth, ans) :: tr) x.

Definition auth_exec {R : Type} (t : itree authE R) (tr : list posted) (x : R) : Prop :=
  postedF (observe t) tr x.

(** ** More sample responses *)

(** A client whose [detail] has no [port]. *)
Definition client_without_port : Response :=
  ok_response (obj [("detail", obj [("connectedDevice",
                                     VList [obj [("id", VStr "switch-uuid")]])]);
                    ("topology", two_nodes)]).

(** A client whose first connected device has an empty [id]. *)
Definition client_with_empty_id (topology : value) : Response :=
  ok_response (obj [("detail", obj [("port", VStr "GigabitEthernet1/0/3");
                                    ("connectedDevice", VList [obj [("id", VStr "")]])]);
                    ("topology", topology)]).

(** Two nodes of which the second has no [id]. *)
Definition nodes_without_id : value :=
  obj [("nodes", VList [obj [("id", VStr "client-uuid")]; obj []])].

Definition interface_null_reply : Response :=
  ok_response (obj [("response", VNone)]).

(** An interface whose [response] has a status and no [id]. *)
Definition interface_reply_without_id : Response :=
  ok_response (obj [("response", obj [("adminStatus", VStr "UP")])]).

(** An interface whose status is the empty string. *)
Definition interface_reply_empty_status : Response :=
  ok_response (obj [("response", obj [("id", VStr "if-uuid");
                                      ("adminStatus", VStr "")])]).

(** A body without a [response] member. *)
Definition interface_reply_without_response : Response :=
  ok_response (obj []).

(** An HTTP error of the controller that is not the tolerated one. *)
Definition server_error_reply : Response :=
  mkResponse 500 "Internal Server Error" None.

Definition put_reply_without_task : Response :=
  ok_response (obj [("response", obj [])]).

Definition token_reply : Response :=
  ok_response (obj [("Token", VStr "eyJ0eXAi")]).

(** The calls of a bounce of an interface that is "UP", with one PENDING
    answer before the task succeeds. *)
Definition demo_up_trace (mode : string) : list io :=
  let url := interface_url (VStr "if-uuid") mode in
  [IoPut url (admin_status "DOWN") (Some put_reply);
   IoGet (task_url (VStr "task-1")) (Some (task_report "PENDING"));
   IoSleep 1;
   IoGet (task_url (VStr "task-1")) (Some (task_report "SUCCESS"));
   IoPut url (admin_status "UP") (Some put_reply)].

(** ** Finished runs of the monad's operations *)

Section Exec.

Context {R : Type}.

(** Reading a run off the head of the tree, without axioms. *)
Lemma execF_inv (ot : itree' ccE R) (tr : list io) (x : R) :
  execF ot tr x ->
  match ot with
  | RetF y => tr = [] /\ x = y
  | TauF t => execF (observe t) tr x
  | VisF e k =>
      match e in ccE X return (X -> itree ccE R) -> Prop with
      | SGet url => fun k =>
          exists ans tr', tr = IoGet url ans :: tr' /\ execF (observe (k ans)) tr' x
      | SPut url js => fun k =>
          exists ans tr', tr = IoPut url js ans :: tr' /\ execF (observe (k ans)) tr' x
      | Sleep secs => fun k =>
          exists tr', tr = IoSleep secs :: tr' /\ execF (observe (k tt)) tr' x
      end k
  end.
Proof.
  destruct 1; cbn; eauto.
Qed.

Lemma exec_Ret_iff (y : R) tr x : exec (Ret y) tr x <-> tr = [] /\ x = y.
Proof.
  split.
  - intros H. exact (execF_inv _ _ _ H).
  - intros [-> ->]. constructor.
Qed.

Lemma exec_Tau_iff (t : itree ccE R) tr x : exec (Tau t) tr x <-> exec t tr x.
Proof.
  split.
  - intros H. exact (execF_inv _ _ _ H).
  - intros H. constructor. exact H.
Qed.

End Exec.

Lemma exec_bind_iff {A B} (t : itree ccE A) (kb : A -> itree ccE B) tr y :
  exec (ITree.bind t kb) tr y <->
  exists tr1 tr2 a, tr = tr1 ++ tr2 /\ exec t tr1 a /\ exec (kb a) tr2 y.
Proof.
  unfold exec. split.
  - intros H. remember (observe (ITree.bind t kb)) as ot eqn:Eot.
    revert t Eot.
    induction H as [x | t' tr x H IH | url k ans tr x H IH
                    | url js k ans tr x H IH | secs k tr x H IH];
      intros t0 Eot; rewrite observe_bind in Eot;
      destruct (observe t0) as [a | t1 | X e k1] eqn:Et0; cbn in Eot;
      try discriminate.
    + exists [], [], a. rewrite <- Eot. repeat split; constructor.
    + exists [], tr, a. rewrite <- Eot. repeat split; try constructor; assumption.
    + injection Eot as ->.
      destruct (IH t1 eq_refl) as (tr1 & tr2 & a & -> & H1 & H2).
      exists tr1, tr2, a. repeat split; try constructor; assumption.
    + exists [], (IoGet url ans :: tr), a. rewrite <- Eot.
      repeat split; constructor; assumption.
    + same_vis Eot.
      destruct (IH (k1 ans) eq_refl) as (tr1 & tr2 & a & -> & H1 & H2).
      exists (IoGet url ans :: tr1), tr2, a. repeat split; try constructor; assumption.
    + exists [], (IoPut url js ans :: tr), a. rewrite <- Eot.
      repeat split; constructor; assumption.
    + same_vis Eot.
      destruct (IH (k1 ans) eq_refl) as (tr1 & tr2 & a & -> & H1 & H2).
      exists (IoPut url js ans :: tr1), tr2, a. repeat split; try constructor; assumption.
    + exists [], (IoSleep secs :: tr), a. rewrite <- Eot.
      repeat split; constructor; assumption.
    + same_vis Eot.
      destruct (IH (k1 tt) eq_refl) as (tr1 & tr2 & a & -> & H1 & H2).
      exists (IoSleep secs :: tr1), tr2, a. repeat split; try constructor; assumption.
  - intros (tr1 & tr2 & a & -> & H1 & H2).
    remember (observe t) as ot eqn:Eot. revert t Eot.
    induction H1 as [x | t' tr x H IH | url k ans tr x H IH
                     | url js k ans tr x H IH | secs k tr x H IH];
      intros t0 Eot; rewrite observe_bind, <- Eot; cbn.
    + exact H2.
    + constructor. apply (IH H2 t'). reflexivity.
    + constructor. apply (IH H2 (k ans)). reflexivity.
    + constructor. apply (IH H2 (k ans)). reflexivity.
    + constructor. apply (IH H2 (k tt)). reflexivity.
Qed.

Lemma exec_ret_iff {A} (a : A) tr x : exec (ret a) tr x <-> tr = [] /\ x = inr a.
Proof. apply exec_Ret_iff. Qed.

Lemma exec_raise_iff {A} (e : py_exn) tr (x : result A) :
  exec (raise e) tr x <-> tr = [] /\ x = inl e.
Proof. apply exec_Ret_iff. Qed.

Lemma exec_lift_iff {A} (y : result A) tr x : exec (lift y) tr x <-> tr = [] /\ x = y.
Proof. apply exec_Ret_iff. Qed.

(** A bind stops at the first exception, or runs the rest after the value. *)
Lemma exec_py_bind_iff {A B} (m : prog A) (k : A -> prog B) tr y :
  exec (bind m k) tr y <->
  (exists e, exec m tr (inl e) /\ y = inl e) \/
  (exists tr1 tr2 a, tr = tr1 ++ tr2 /\ exec m tr1 (inr a) /\ exec (k a) tr2 y).
Proof.
  unfold bind. rewrite exec_bind_iff. split.
  - intros (tr1 & tr2 & [e | a] & -> & H1 & H2).
    + apply exec_Ret_iff in H2 as [-> ->]. left. exists e.
      rewrite app_nil_r. auto.
    + right. exists tr1, tr2, a. auto.
  - intros [(e & H1 & ->) | (tr1 & tr2 & a & -> & H1 & H2)].
    + exists tr, [], (inl e). rewrite app_nil_r. repeat split; try assumption.
      constructor.
    + exists tr1, tr2, (inr a). auto.
Qed.

Lemma exec_try_except_iff {A} (body : prog A) handler tr (y : result A) :
  exec (try_except body handler) tr y <->
  (exists a, exec body tr (inr a) /\ y = inr a) \/
  (exists e, exec body tr (inl e) /\ handler e = None /\ y = inl e) \/
  (exists tr1 tr2 e h, tr = tr1 ++ tr2 /\ exec body tr1 (inl e) /\
                       handler e = Some h /\ exec h tr2 y).
Proof.
  unfold try_except. rewrite exec_bind_iff. split.
  - intros (tr1 & tr2 & [e | a] & -> & H1 & H2).
    + destruct (handler e) as [h |] eqn:Eh.
      * right. right. exists tr1, tr2, e, h. auto.
      * apply exec_Ret_iff in H2 as [-> ->]. right. left. exists e.
        rewrite app_nil_r. auto.
    + apply exec_Ret_iff in H2 as [-> ->]. left. exists a.
      rewrite app_nil_r. auto.
  - intros [(a & H1 & ->) | [(e & H1 & Eh & ->) | (tr1 & tr2 & e & h & -> & H1 & Eh & H2)]].
    + exists tr, [], (inr a). rewrite app_nil_r. repeat split; try assumption.
      constructor.
    + exists tr, [], (inl e). rewrite app_nil_r, Eh. repeat split; try assumption.
      constructor.
    + exists tr1, tr2, (inl e). rewrite Eh. auto.
Qed.

Lemma exec_s_get_iff url tr x :
  exec (s_get url) tr x <-> exists ans, tr = [IoGet url ans] /\ x = answered ans.
Proof.
  split.
  - intros H. apply execF_inv in H. cbn in H.
    destruct H as (ans & tr' & -> & H). exists ans.
    destruct ans; apply execF_inv in H; cbn in H; destruct H as [-> ->]; auto.
  - intros (ans & -> & ->). unfold exec. cbn. constructor.
    destruct ans; cbn; constructor.
Qed.

Lemma exec_s_put_iff url js tr x :
  exec (s_put url js) tr x <-> exists ans, tr = [IoPut url js ans] /\ x = answered ans.
Proof.
  split.
  - intros H. apply execF_inv in H. cbn in H.
    destruct H as (ans & tr' & -> & H). exists ans.
    destruct ans; apply execF_inv in H; cbn in H; destruct H as [-> ->]; auto.
  - intros (ans & -> & ->). unfold exec. cbn. constructor.
    destruct ans; cbn; constructor.
Qed.

Lemma exec_sleep_iff secs tr x :
  exec (sleep secs) tr x <-> tr = [IoSleep secs] /\ x = inr tt.
Proof.
  split.
  - intros H. apply execF_inv in H. cbn in H.
    destruct H as (tr' & -> & H).
    apply execF_inv in H; cbn in H; destruct H as [-> ->]; auto.
  - intros (-> & ->). unfold exec. cbn. constructor. cbn. constructor.
Qed.

Section WhileTrue.

Variable body : prog loop_exit.

Lemma observe_while_True :
  observe (while_True body) = observe (ITree.bind (loop_step body tt) (loop_again body)).
Proof. reflexivity. Qed.

Lemma exec_step_inv tr o :
  exec (loop_step body tt) tr o ->
  match o with
  | inl _ => exec body tr (inr Continue)
  | inr (inl e) => exec body tr (inl e)
  | inr (inr _) => exec body tr (inr Break)
  end.
Proof.
  unfold loop_step. rewrite exec_bind_iff.
  intros (tr1 & tr2 & [e | [ | ]] & -> & H1 & H2);
    apply exec_Ret_iff in H2 as [-> ->]; rewrite app_nil_r; assumption.
Qed.

Lemma loop_run_of_exec_aux ot tr x :
  execF ot tr x ->
  forall t, ot = observe (ITree.bind t (loop_again body)) ->
  exists tr1 tr2 o, tr = tr1 ++ tr2 /\ exec t tr1 o /\
    match o with
    | inl _ => loop_run body tr2 x
    | inr r => tr2 = [] /\ x = r
    end.
Proof.
  unfold exec.
  induction 1 as [x | t' tr x H IH | url k ans tr x H IH
                  | url js k ans tr x H IH | secs k tr x H IH];
    intros t0 Eot; rewrite observe_bind in Eot;
    destruct (observe t0) as [[[] | r] | t1 | X e k1] eqn:Et0; cbn in Eot;
    try discriminate.
  - injection Eot as ->. exists [], [], (inr r). repeat split. constructor.
  - injection Eot as ->.
    destruct (IH (loop_step body tt) eq_refl) as (tr1 & tr2 & o & -> & H1 & H2).
    exists [], (tr1 ++ tr2), (inl tt). repeat split; [constructor |].
    apply exec_step_inv in H1. destruct o as [[] | [e | []]].
    + apply loop_continue; assumption.
    + destruct H2 as [-> ->]. rewrite app_nil_r. apply loop_raise; assumption.
    + destruct H2 as [-> ->]. rewrite app_nil_r. apply loop_break; assumption.
  - injection Eot as ->.
    destruct (IH t1 eq_refl) as (tr1 & tr2 & o & -> & H1 & H2).
    exists tr1, tr2, o. repeat split; try constructor; assumption.
  - same_vis Eot.
    destruct (IH (k1 ans) eq_refl) as (tr1 & tr2 & o & -> & H1 & H2).
    exists (IoGet url ans :: tr1), tr2, o. repeat split; try constructor; assumption.
  - same_vis Eot.
    destruct (IH (k1 ans) eq_refl) as (tr1 & tr2 & o & -> & H1 & H2).
    exists (IoPut url js ans :: tr1), tr2, o. repeat split; try constructor; assumption.
  - same_vis Eot.
    destruct (IH (k1 tt) eq_refl) as (tr1 & tr2 & o & -> & H1 & H2).
    exists (IoSleep secs :: tr1), tr2, o. repeat split; try constructor; assumption.
Qed.

Lemma exec_while_True_iff tr x :
  exec (while_True body) tr x <-> loop_run body tr x.
Proof.
  split.
  - intros H. unfold exec in H.
    destruct (loop_run_of_exec_aux _ _ _ H (loop_step body tt) observe_while_True)
      as (tr1 & tr2 & o & -> & H1 & H2).
    apply exec_step_inv in H1. destruct o as [[] | [e | []]].
    + apply loop_continue; assumption.
    + destruct H2 as [-> ->]. rewrite app_nil_r. apply loop_raise; assumption.
    + destruct H2 as [-> ->]. rewrite app_nil_r. apply loop_break; assumption.
  - assert (Hturn : forall tr1 o, exec body tr1 o ->
              exec (loop_step body tt) tr1 (match o with
                                  | inl e => inr (inl e)
                                  | inr Continue => inl tt
                                  | inr Break => inr (inr tt)
                                  end)).
    { intros tr1 o Ho. unfold loop_step. apply exec_bind_iff.
      exists tr1, [], o. rewrite app_nil_r. repeat split; [assumption |].
      destruct o as [e | []]; constructor. }
    induction 1 as [tr e H | tr H | tr1 tr2 x H1 H2 IH];
      unfold exec; rewrite observe_while_True; apply exec_bind_iff.
    + exists tr, [], (inr (inl e)). rewrite app_nil_r.
      repeat split; [exact (Hturn _ _ H) | constructor].
    + exists tr, [], (inr (inr tt)). rewrite app_nil_r.
      repeat split; [exact (Hturn _ _ H) | constructor].
    + exists tr1, tr2, (inl tt).
      repeat split; [exact (Hturn _ _ H1) |].
      apply exec_Tau_iff. exact IH.
Qed.

End WhileTrue.

(** A program is deterministic: the answers it gets fix its run. *)
Lemma exec_det {R} (t : itree ccE R) tr1 x1 tr2 x2 :
  exec t tr1 x1 -> exec t tr2 x2 -> answers tr1 = answers tr2 ->
  tr1 = tr2 /\ x1 = x2.
Proof.
  unfold exec. generalize (observe t) as ot. clear t.
  intros ot H1. revert tr2.
  induction H1 as [x | t' tr x H IH | url k ans tr x H IH
                   | url js k ans tr x H IH | secs k tr x H IH];
    intros tr2 H2 Ha; apply execF_inv in H2; cbn in H2.
  - destruct H2 as [-> ->]. auto.
  - apply IH; assumption.
  - destruct H2 as (ans2 & tr2' & -> & H2). cbn in Ha. injection Ha as -> Ha.
    destruct (IH _ H2 Ha) as [-> ->]. auto.
  - destruct H2 as (ans2 & tr2' & -> & H2). cbn in Ha. injection Ha as -> Ha.
    destruct (IH _ H2 Ha) as [-> ->]. auto.
  - destruct H2 as (tr2' & -> & H2). cbn in Ha.
    destruct (IH _ H2 Ha) as [-> ->]. auto.
Qed.

(** ** Stepping through a function body *)

Lemma exec_bind_lift {A B} (y : result A) (k : A -> prog B) tr x :
  exec (bind (lift y) k) tr x <->
  match y with
  | inl e => tr = [] /\ x = inl e
  | inr a => exec (k a) tr x
  end.
Proof.
  destruct y as [e | a].
  - exact (exec_Ret_iff (inl e) tr x).
  - reflexivity.
Qed.

Lemma exec_bind_s_get {B} url (k : Response -> prog B) tr x :
  exec (bind (s_get url) k) tr x <->
  exists ans tr', tr = IoGet url ans :: tr' /\ exec (bind (lift (answered ans)) k) tr' x.
Proof.
  split.
  - intros H. apply execF_inv in H. cbn in H.
    destruct H as (ans & tr' & -> & H). exists ans, tr'. split; [reflexivity | exact H].
  - intros (ans & tr' & -> & H). unfold exec. cbn. constructor. exact H.
Qed.

Lemma exec_bind_s_put {B} url js (k : Response -> prog B) tr x :
  exec (bind (s_put url js) k) tr x <->
  exists ans tr', tr = IoPut url js ans :: tr' /\ exec (bind (lift (answered ans)) k) tr' x.
Proof.
  split.
  - intros H. apply execF_inv in H. cbn in H.
    destruct H as (ans & tr' & -> & H). exists ans, tr'. split; [reflexivity | exact H].
  - intros (ans & tr' & -> & H). unfold exec. cbn. constructor. exact H.
Qed.

Lemma exec_bind_sleep {B} secs (k : unit -> prog B) tr x :
  exec (bind (sleep secs) k) tr x <->
  exists tr', tr = IoSleep secs :: tr' /\ exec (k tt) tr' x.
Proof.
  split.
  - intros H. apply execF_inv in H. cbn in H.
    destruct H as (tr' & -> & H). exists tr'. split; [reflexivity | exact H].
  - intros (tr' & -> & H). unfold exec. cbn. constructor. exact H.
Qed.

Lemma raise_for_status_lift r :
  raise_for_status r = lift (if is_http_error r then inl (HTTPError r) else inr tt).
Proof. unfold raise_for_status. destruct (is_http_error r); reflexivity. Qed.

Lemma empty_check_lift (s : string) :
  (if String.eqb s "" then raise (Exception "Empty Response from the server.")
   else ret tt)
  = lift (if String.eqb s "" then inl (Exception "Empty Response from the server.")
          else inr tt).
Proof. destruct (String.eqb s ""); reflexivity. Qed.

Lemma json_lift r :
  json r = lift (match body r with Some j => inr j | None => inl JSONDecodeError end).
Proof. unfold json. destruct (body r); reflexivity. Qed.

(** The request and the three checks after it, in one step. *)
Lemma exec_request_get {B} url (k : value -> prog B) tr x :
  exec (r <- s_get url ;;
        raise_for_status r ;;
        (if String.eqb (text r) "" then raise (Exception "Empty Response from the server.")
         else ret tt) ;;
        json_resp <- json r ;;
        k json_resp) tr x <->
  exists ans tr', tr = IoGet url ans :: tr' /\
    match decoded ans with
    | inl e => tr' = [] /\ x = inl e
    | inr j => exec (k j) tr' x
    end.
Proof.
  clear CCC_URL py_repr. rewrite exec_bind_s_get.
  split; intros (ans & tr' & -> & H); exists ans, tr'; (split; [reflexivity |]);
    revert H; rewrite exec_bind_lift; destruct ans as [r |]; cbn; try tauto;
    rewrite raise_for_status_lift, exec_bind_lift;
    destruct (is_http_error r); try tauto;
    rewrite empty_check_lift, exec_bind_lift;
    destruct (String.eqb (text r) ""); try tauto;
    rewrite json_lift, exec_bind_lift;
    destruct (body r); tauto.
Qed.

Lemma exec_request_put {B} url js (k : value -> prog B) tr x :
  exec (r <- s_put url js ;;
        raise_for_status r ;;
        (if String.eqb (text r) "" then raise (Exception "Empty Response from the server.")
         else ret tt) ;;
        json_resp <- json r ;;
        k json_resp) tr x <->
  exists ans tr', tr = IoPut url js ans :: tr' /\
    match decoded ans with
    | inl e => tr' = [] /\ x = inl e
    | inr j => exec (k j) tr' x
    end.
Proof.
  clear CCC_URL py_repr. rewrite exec_bind_s_put.
  split; intros (ans & tr' & -> & H); exists ans, tr'; (split; [reflexivity |]);
    revert H; rewrite exec_bind_lift; destruct ans as [r |]; cbn; try tauto;
    rewrite raise_for_status_lift, exec_bind_lift;
    destruct (is_http_error r); try tauto;
    rewrite empty_check_lift, exec_bind_lift;
    destruct (String.eqb (text r) ""); try tauto;
    rewrite json_lift, exec_bind_lift;
    destruct (body r); tauto.
Qed.

Lemma decoded_inr ans j :
  decoded ans = inr j <-> exists r, ans = Some r /\ accepted r j.
Proof.
  unfold decoded, accepted. split.
  - destruct ans as [r |]; [| discriminate].
    destruct (is_http_error r) eqn:Es; [discriminate |].
    destruct (String.eqb (text r) "") eqn:Et; [discriminate |].
    destruct (body r) as [j' |] eqn:Eb; [| discriminate].
    intros [= ->]. exists r. apply String.eqb_neq in Et. repeat split; auto.
  - intros (r & -> & Hs & Ht & Hb). rewrite Hs, Hb.
    apply String.eqb_neq in Ht. rewrite Ht. reflexivity.
Qed.

Lemma decoded_accepted r j : accepted r j -> decoded (Some r) = inr j.
Proof. intros H. apply decoded_inr. exists r. auto. Qed.

(** ** The poll loops *)

Lemma bind_assoc_runs {A B C} (m : prog A) (f : A -> prog B) (g : B -> prog C) :
  same_runs (bind (bind m f) g) (bind m (fun a => bind (f a) g)).
Proof.
  intros tr x. rewrite !exec_py_bind_iff. split.
  - intros [(e & H & ->) | (tr1 & tr2 & b & -> & H & Hg)].
    + apply exec_py_bind_iff in H as [(e' & H & [= <-]) | (tr1 & tr2 & a & -> & H & Hf)].
      * left. exists e. auto.
      * right. exists tr1, tr2, a. repeat split; try assumption.
        apply exec_py_bind_iff. left. exists e. auto.
    + apply exec_py_bind_iff in H as [(e' & H & [=]) | (tr3 & tr4 & a & -> & H & Hf)].
      right. exists tr3, (tr4 ++ tr2), a. rewrite app_assoc.
      repeat split; try assumption.
      apply exec_py_bind_iff. right. exists tr4, tr2, b. auto.
  - intros [(e & H & ->) | (tr1 & tr2 & a & -> & H & Hfg)].
    + left. exists e. split; [| reflexivity].
      apply exec_py_bind_iff. left. exists e. auto.
    + apply exec_py_bind_iff in Hfg as [(e & Hf & ->) | (tr3 & tr4 & b & -> & Hf & Hg)].
      * left. exists e. split; [| reflexivity].
        apply exec_py_bind_iff. right. exists tr1, tr2, a. auto.
      * right. exists (tr1 ++ tr3), tr4, b. rewrite app_assoc.
        repeat split; try assumption.
        apply exec_py_bind_iff. right. exists tr1, tr3, a. auto.
Qed.

Lemma bind_cong_runs {A B} (m : prog A) (k1 k2 : A -> prog B) :
  (forall a, same_runs (k1 a) (k2 a)) -> same_runs (bind m k1) (bind m k2).
Proof.
  intros Hk tr x. rewrite !exec_py_bind_iff.
  split; (intros [H | (tr1 & tr2 & a & -> & H & Hk')]; [left; exact H |]);
    right; exists tr1, tr2, a; repeat split; try assumption; apply Hk; exact Hk'.
Qed.

Lemma exec_bind_lookup_task {B} task_id (k : value -> prog B) tr x :
  exec (bind (lookup_task task_id) k) tr x <->
  exists ans tr', tr = IoGet (task_url task_id) ans :: tr' /\
    match decoded ans with
    | inl e => tr' = [] /\ x = inl e
    | inr j => exec (k j) tr' x
    end.
Proof.
  unfold lookup_task, task_url. rewrite <- exec_request_get.
  etransitivity; [apply bind_assoc_runs |].
  apply bind_cong_runs; intros r tr1 x1. cbn beta.
  etransitivity; [apply bind_assoc_runs |].
  apply bind_cong_runs; intros _ tr2 x2.
  apply bind_assoc_runs.
Qed.

Lemma poll_DOWN_turn_iff resp1 tr o :
  exec (poll_DOWN_turn resp1) tr o <-> turn_spec resp1 tr o.
Proof.
  unfold poll_DOWN_turn, turn_spec, turn_outcome. rewrite exec_bind_lift.
  destruct (task_id_of resp1) as [e | task_id]; [reflexivity |].
  rewrite exec_bind_lookup_task. split.
  - intros (ans & tr' & -> & H). exists ans.
    destruct (decoded ans) as [e | td]; [destruct H as [-> ->]; auto |].
    rewrite exec_bind_lift in H.
    destruct (task_status td) as [e | st]; [destruct H as [-> ->]; auto |].
    destruct (eq_str st "PENDING") eqn:Ep.
    + apply exec_bind_sleep in H as (tr2 & -> & H).
      apply exec_ret_iff in H as [-> ->]. auto.
    + rewrite exec_bind_lift in H. destruct (eq_str st "SUCCESS") eqn:Es.
      * apply exec_ret_iff in H as [-> ->]. auto.
      * rewrite exec_bind_lift in H. unfold ne_str in H. rewrite Es in H. cbn in H.
        apply exec_raise_iff in H as [-> ->]. auto.
  - intros (ans & -> & ->). exists ans. eexists. split; [reflexivity |].
    destruct (decoded ans) as [e | td]; [auto |].
    rewrite exec_bind_lift.
    destruct (task_status td) as [e | st]; [auto |].
    destruct (eq_str st "PENDING") eqn:Ep.
    + apply exec_bind_sleep. eexists. split; [reflexivity |]. apply exec_ret_iff. auto.
    + rewrite exec_bind_lift. destruct (eq_str st "SUCCESS") eqn:Es.
      * apply exec_ret_iff. auto.
      * rewrite exec_bind_lift. unfold ne_str. rewrite Es. cbn.
        apply exec_raise_iff. auto.
Qed.

Lemma poll_UP_turn_iff resp1 tr o :
  exec (poll_UP_turn resp1) tr o <-> turn_spec resp1 tr o.
Proof.
  unfold poll_UP_turn, turn_spec, turn_outcome. rewrite exec_bind_lift.
  destruct (task_id_of resp1) as [e | task_id]; [reflexivity |].
  rewrite exec_bind_lookup_task. split.
  - intros (ans & tr' & -> & H). exists ans.
    destruct (decoded ans) as [e | td]; [destruct H as [-> ->]; auto |].
    rewrite exec_bind_lift in H.
    destruct (task_status td) as [e | st]; [destruct H as [-> ->]; auto |].
    destruct (eq_str st "PENDING") eqn:Ep.
    + apply exec_bind_sleep in H as (tr2 & -> & H).
      apply exec_ret_iff in H as [-> ->]. auto.
    + rewrite exec_bind_lift in H. destruct (eq_str st "SUCCESS") eqn:Es.
      * apply exec_ret_iff in H as [-> ->]. auto.
      * apply exec_raise_iff in H as [-> ->]. auto.
  - intros (ans & -> & ->). exists ans. eexists. split; [reflexivity |].
    destruct (decoded ans) as [e | td]; [auto |].
    rewrite exec_bind_lift.
    destruct (task_status td) as [e | st]; [auto |].
    destruct (eq_str st "PENDING") eqn:Ep.
    + apply exec_bind_sleep. eexists. split; [reflexivity |]. apply exec_ret_iff. auto.
    + rewrite exec_bind_lift. destruct (eq_str st "SUCCESS") eqn:Es.
      * apply exec_ret_iff. auto.
      * apply exec_raise_iff. auto.
Qed.

Lemma eq_str_true v lit : eq_str v lit = true <-> v = VStr lit.
Proof.
  destruct v; cbn; try (split; [discriminate | intros [=]]).
  rewrite String.eqb_eq. split; [intros -> | intros [=]]; congruence.
Qed.

Lemma eq_str_false v lit : eq_str v lit = false <-> v <> VStr lit.
Proof.
  rewrite <- eq_str_true. destruct (eq_str v lit); split; congruence.
Qed.

Lemma turn_outcome_reply r st :
  task_reply r st ->
  turn_outcome (Some r) =
    if eq_str st "PENDING" then inr Continue
    else if eq_str st "SUCCESS" then inr Break
    else inl task_failed.
Proof.
  intros (j & Hj & Hst). unfold turn_outcome.
  replace (decoded (Some r)) with (inr j : result value).
  - rewrite Hst. reflexivity.
  - symmetry. apply decoded_inr. exists r. auto.
Qed.

Lemma turn_outcome_inr ans o :
  turn_outcome ans = inr o ->
  exists r, ans = Some r /\
    task_reply r (VStr match o with Continue => "PENDING" | Break => "SUCCESS" end).
Proof.
  unfold turn_outcome. destruct (decoded ans) as [e | j] eqn:Ed; [discriminate |].
  apply decoded_inr in Ed as (r & -> & Hr).
  destruct (task_status j) as [e | st] eqn:Est; [discriminate |].
  destruct (eq_str st "PENDING") eqn:Ep.
  - intros [= <-]. apply eq_str_true in Ep as ->. exists r. split; [reflexivity |].
    exists j. auto.
  - destruct (eq_str st "SUCCESS") eqn:Es; [| discriminate].
    intros [= <-]. apply eq_str_true in Es as ->. exists r. split; [reflexivity |].
    exists j. auto.
Qed.

Section Poll.

Variable body : prog loop_exit.
Variable resp1 : value.
Hypothesis body_spec : forall tr o, exec body tr o <-> turn_spec resp1 tr o.

Lemma poll_without_task_id e tr x :
  task_id_of resp1 = inl e -> loop_run body tr x -> tr = [] /\ x = inl e.
Proof using body_spec.
  intros He. destruct 1 as [tr e' H | tr H | tr1 tr2 x H _];
    apply body_spec in H; unfold turn_spec in H; rewrite He in H;
    destruct H as [-> Ho]; try discriminate.
  injection Ho as ->. auto.
Qed.

Lemma poll_puts tr x : loop_run body tr x -> puts tr = [].
Proof using body_spec.
  induction 1 as [tr e H | tr H | tr1 tr2 x H _ IH];
    apply body_spec in H; unfold turn_spec in H;
    destruct (task_id_of resp1) as [e' | task_id];
    try (destruct H as [-> _]; try exact IH; reflexivity);
    destruct H as (ans & _ & ->); try exact IH; reflexivity.
Qed.

Lemma poll_returns_inv task_id tr :
  task_id_of resp1 = inr task_id ->
  loop_run body tr (inr tt) ->
  exists pending last,
    tr = poll_trace (task_url task_id) pending last /\
    Forall (fun r => task_reply r (VStr "PENDING")) pending /\
    task_reply last (VStr "SUCCESS").
Proof using body_spec.
  intros Hid H. remember (inr tt : result unit) as x eqn:Ex.
  induction H as [tr e H | tr H | tr1 tr2 x H _ IH]; [discriminate | |];
    apply body_spec in H; unfold turn_spec in H; rewrite Hid in H;
    destruct H as (ans & Ho & ->); symmetry in Ho;
    apply turn_outcome_inr in Ho as (r & -> & Hr).
  - exists [], r. repeat split; [constructor | exact Hr].
  - destruct (IH Ex) as (pending & last & -> & Hp & Hl).
    exists (r :: pending), last. repeat split; [constructor |]; assumption.
Qed.

Lemma poll_pending task_id pending tr x :
  task_id_of resp1 = inr task_id ->
  Forall (fun r => task_reply r (VStr "PENDING")) pending ->
  loop_run body tr x ->
  loop_run body
    (flat_map (fun r => [IoGet (task_url task_id) (Some r); IoSleep 1]) pending ++ tr) x.
Proof using body_spec.
  intros Hid Hp Hrun. induction Hp as [| r pending Hr _ IH]; [exact Hrun |].
  apply (loop_continue body [IoGet (task_url task_id) (Some r); IoSleep 1]);
    [| exact IH].
  apply body_spec. unfold turn_spec. rewrite Hid. exists (Some r).
  rewrite (turn_outcome_reply _ _ Hr). auto.
Qed.

Lemma poll_returns task_id pending last :
  task_id_of resp1 = inr task_id ->
  Forall (fun r => task_reply r (VStr "PENDING")) pending ->
  task_reply last (VStr "SUCCESS") ->
  loop_run body (poll_trace (task_url task_id) pending last) (inr tt).
Proof using body_spec.
  intros Hid Hp Hl. apply poll_pending; try assumption.
  apply loop_break, body_spec. unfold turn_spec. rewrite Hid. exists (Some last).
  rewrite (turn_outcome_reply _ _ Hl). auto.
Qed.

Lemma poll_fails task_id pending last st :
  task_id_of resp1 = inr task_id ->
  Forall (fun r => task_reply r (VStr "PENDING")) pending ->
  task_reply last st -> st <> VStr "PENDING" -> st <> VStr "SUCCESS" ->
  loop_run body (poll_trace (task_url task_id) pending last) (inl task_failed).
Proof using body_spec.
  intros Hid Hp Hl Hnp Hns. apply poll_pending; try assumption.
  apply loop_raise, body_spec. unfold turn_spec. rewrite Hid. exists (Some last).
  rewrite (turn_outcome_reply _ _ Hl).
  apply eq_str_false in Hnp, Hns. rewrite Hnp, Hns. auto.
Qed.

End Poll.

(** ** [interface_shut_no_shut] *)

Lemma exec_then_ret_tt (m : prog unit) tr x :
  exec (m ;; ret tt) tr x <-> exec m tr x.
Proof.
  rewrite exec_py_bind_iff. split.
  - intros [(e & H & ->) | (tr1 & tr2 & [] & -> & H & Hr)]; [exact H |].
    apply exec_ret_iff in Hr as [-> ->]. rewrite app_nil_r. exact H.
  - destruct x as [e | []]; intros H.
    + left. exists e. auto.
    + right. exists tr, [], tt. rewrite app_nil_r. repeat split; [exact H |].
      apply exec_ret_iff. auto.
Qed.

Lemma exec_restore_UP url tr x :
  exec (restore_UP url) tr x <->
  exists ans, tr = [IoPut url (admin_status "UP") ans] /\ x = restore_outcome ans.
Proof.
  unfold restore_UP.
  assert (Hbody : forall tr y,
    exec (r2 <- s_put url (admin_status "UP") ;;
          raise_for_status r2 ;;
          (if String.eqb (text r2) ""
           then raise (Exception "Empty Response from the server.")
           else ret tt) ;;
          ret tt) tr y <->
    exists ans, tr = [IoPut url (admin_status "UP") ans] /\
      y = match ans with
          | None => inl RequestException
          | Some r2 =>
              if is_http_error r2 then inl (HTTPError r2)
              else if String.eqb (text r2) ""
                   then inl (Exception "Empty Response from the server.")
                   else inr tt
          end).
  { intros tr0 y. rewrite exec_bind_s_put.
    split.
    - intros (ans & tr' & -> & H). exists ans. revert H.
      rewrite exec_bind_lift. destruct ans as [r2 |]; cbn; [| intros [-> ->]; auto].
      rewrite raise_for_status_lift, exec_bind_lift.
      destruct (is_http_error r2); [intros [-> ->]; auto |].
      rewrite empty_check_lift, exec_bind_lift.
      destruct (String.eqb (text r2) ""); [intros [-> ->]; auto |].
      intros H. apply exec_ret_iff in H as [-> ->]. auto.
    - intros (ans & -> & ->). exists ans, []. split; [reflexivity |].
      rewrite exec_bind_lift. destruct ans as [r2 |]; cbn; [| auto].
      rewrite raise_for_status_lift, exec_bind_lift.
      destruct (is_http_error r2); [auto |].
      rewrite empty_check_lift, exec_bind_lift.
      destruct (String.eqb (text r2) ""); [auto |].
      apply exec_ret_iff. auto. }
  rewrite exec_try_except_iff. split.
  - intros [(a & H & ->) | [(e & H & Hh & ->) | (tr1 & tr2 & e & h & -> & H & Hh & Hrun)]];
      apply Hbody in H as (ans & -> & Hy); exists ans.
    + split; [reflexivity |]. destruct a. unfold restore_outcome.
      destruct ans as [r2 |]; [| discriminate].
      destruct (is_http_error r2); [discriminate |].
      destruct (String.eqb (text r2) ""); [discriminate | reflexivity].
    + split; [reflexivity |]. unfold restore_outcome.
      destruct ans as [r2 |]; [| exact Hy].
      destruct (is_http_error r2); [injection Hy as ->; discriminate |].
      destruct (String.eqb (text r2) ""); [exact Hy | discriminate].
    + unfold restore_outcome.
      destruct ans as [r2 |]; [| injection Hy as ->; discriminate].
      destruct (is_http_error r2).
      * injection Hy as ->. injection Hh as <-.
        destruct (contains "No change in setting" (text r2));
          [apply exec_ret_iff in Hrun | apply exec_raise_iff in Hrun];
          destruct Hrun as [-> ->]; auto.
      * destruct (String.eqb (text r2) ""); [injection Hy as ->|]; discriminate.
  - intros (ans & -> & ->). unfold restore_outcome.
    destruct ans as [r2 |].
    + destruct (is_http_error r2) eqn:Es.
      * right. right.
        exists [IoPut url (admin_status "UP") (Some r2)], [], (HTTPError r2).
        eexists. repeat split.
        -- apply Hbody. exists (Some r2). rewrite Es. auto.
        -- destruct (contains "No change in setting" (text r2));
             [apply exec_ret_iff | apply exec_raise_iff]; auto.
      * destruct (String.eqb (text r2) "") eqn:Et.
        -- right. left. exists (Exception "Empty Response from the server.").
           repeat split.
           apply Hbody. exists (Some r2). rewrite Es, Et. auto.
        -- left. exists tt. split; [| reflexivity].
           apply Hbody. exists (Some r2). rewrite Es, Et. auto.
    + right. left. exists RequestException. repeat split.
      apply Hbody. exists None. auto.
Qed.

Lemma interface_shut_no_shut_DOWN_iff uuid mode tr x :
  exec (interface_shut_no_shut uuid (VStr "DOWN") mode) tr x <->
  exists ans tr',
    tr = IoPut (interface_url uuid mode) (admin_status "UP") ans :: tr' /\
    match decoded ans with
    | inl e => tr' = [] /\ x = inl e
    | inr resp1 => loop_run (poll_DOWN_turn resp1) tr' x
    end.
Proof.
  unfold interface_shut_no_shut. cbn [eq_str String.eqb Ascii.eqb Bool.eqb].
  cbv zeta. rewrite exec_request_put.
  split; intros (ans & tr' & -> & H); exists ans, tr'; (split; [reflexivity |]);
    destruct (decoded ans) as [e | resp1]; try exact H.
  - apply exec_then_ret_tt, exec_while_True_iff in H. exact H.
  - apply exec_then_ret_tt, exec_while_True_iff. exact H.
Qed.

Lemma interface_shut_no_shut_UP_iff uuid mode tr x :
  exec (interface_shut_no_shut uuid (VStr "UP") mode) tr x <->
  exists ans tr',
    tr = IoPut (interface_url uuid mode) (admin_status "DOWN") ans :: tr' /\
    match decoded ans with
    | inl e => tr' = [] /\ x = inl e
    | inr resp1 =>
        (exists e, loop_run (poll_UP_turn resp1) tr' (inl e) /\ x = inl e) \/
        (exists polls ans2,
           tr' = polls ++ [IoPut (interface_url uuid mode) (admin_status "UP") ans2] /\
           loop_run (poll_UP_turn resp1) polls (inr tt) /\
           x = restore_outcome ans2)
    end.
Proof.
  unfold interface_shut_no_shut. cbn [eq_str String.eqb Ascii.eqb Bool.eqb].
  cbv zeta. rewrite exec_request_put.
  split; intros (ans & tr' & -> & H); exists ans, tr'; (split; [reflexivity |]);
    destruct (decoded ans) as [e | resp1]; try exact H.
  - apply exec_py_bind_iff in H as [(e & H & ->) | (polls & tr2 & [] & -> & H & Hr)];
      apply exec_while_True_iff in H.
    + left. exists e. auto.
    + apply exec_restore_UP in Hr as (ans2 & -> & ->).
      right. exists polls, ans2. auto.
  - apply exec_py_bind_iff.
    destruct H as [(e & H & ->) | (polls & ans2 & -> & H & ->)];
      apply exec_while_True_iff in H.
    + left. exists e. auto.
    + right. exists polls, [IoPut (interface_url uuid mode) (admin_status "UP") ans2], tt.
      repeat split; [exact H |]. apply exec_restore_UP. exists ans2. auto.
Qed.

Lemma interface_shut_no_shut_other_iff uuid st mode tr x :
  st <> VStr "DOWN" -> st <> VStr "UP" ->
  exec (interface_shut_no_shut uuid st mode) tr x <-> tr = [] /\ x = inr tt.
Proof.
  intros Hd Hu. apply eq_str_false in Hd, Hu.
  unfold interface_shut_no_shut. rewrite Hd, Hu. apply exec_ret_iff.
Qed.

Lemma puts_app tr1 tr2 : puts (tr1 ++ tr2) = puts tr1 ++ puts tr2.
Proof. apply flat_map_app. Qed.

Lemma puts_cons_put url js ans tr :
  puts (IoPut url js ans :: tr) = (url, js) :: puts tr.
Proof. reflexivity. Qed.

Lemma puts_poll_trace url pending last : puts (poll_trace url pending last) = [].
Proof.
  unfold poll_trace. rewrite puts_app. cbn. rewrite app_nil_r.
  induction pending as [| r pending IH]; [reflexivity | exact IH].
Qed.

Lemma In_puts url js ans tr : In (IoPut url js ans) tr -> In (url, js) (puts tr).
Proof.
  intros H. unfold puts. apply in_flat_map. exists (IoPut url js ans).
  split; [exact H | left; reflexivity].
Qed.

Lemma admin_status_inj a b : admin_status a = admin_status b -> a = b.
Proof.
  intros H.
  assert (Hg : getitem (admin_status a) "adminStatus"
               = getitem (admin_status b) "adminStatus") by (rewrite H; reflexivity).
  unfold admin_status, getitem in Hg. rewrite !lookup_singleton_eq in Hg.
  congruence.
Qed.

Lemma contains_spec needle hay :
  contains needle hay = true <-> exists before after, hay = before +:+ needle +:+ after.
Proof.
  assert (Hcons : forall c s t, String c s +:+ t = String c (s +:+ t))
    by reflexivity.
  assert (Hnil : forall t, "" +:+ t = t) by reflexivity.
  assert (Hprefix : forall n h, String.prefix n h = true <-> exists a, h = n +:+ a).
  { induction n as [| c n IH]; intros h.
    - split; [exists h; reflexivity | destruct h; reflexivity].
    - destruct h as [| c' h]; cbn [String.prefix].
      + split; [discriminate | intros (a & Ha); rewrite Hcons in Ha; discriminate].
      + destruct (Ascii.ascii_dec c c') as [<- | Hc].
        * rewrite IH. split; intros (a & Ha); exists a; rewrite Hcons in *; congruence.
        * split; [discriminate | intros (a & Ha); rewrite Hcons in Ha; congruence]. }
  induction hay as [| c hay IH]; cbn [contains]; rewrite orb_true_iff.
  - rewrite Hprefix. split.
    + intros [(a & Ha) | [=]]. exists "", a. exact Ha.
    + intros ([| c b] & a & Ha); [| rewrite Hcons in Ha; discriminate].
      left. exists a. exact Ha.
  - rewrite Hprefix, IH. split.
    + intros [(a & Ha) | (b & a & ->)].
      * exists "", a. exact Ha.
      * exists (String c b), a. reflexivity.
    + intros ([| c' b] & a & Ha).
      * left. exists a. exact Ha.
      * right. rewrite Hcons in Ha. injection Ha as -> ->. exists b, a. reflexivity.
Qed.

(** ** The orchestrator on an interface that is ["DOWN"] *)

(** C7.  On an interface whose status is ["DOWN"], every finished run of
    [interface_shut_no_shut], however it ends, has made exactly one PUT,
    the one that sets [adminStatus] to ["UP"], and none that sets ["DOWN"];
    and the runs that return are exactly those in which that PUT was
    accepted and the lookups of its task answered PENDING some number of
    times and then SUCCESS: the trace ends with the lookup that saw
    SUCCESS. *)
Theorem interface_shut_no_shut_DOWN_spec uuid mode :
  (forall tr x,
     exec (interface_shut_no_shut uuid (VStr "DOWN") mode) tr x ->
     puts tr = [(interface_url uuid mode, admin_status "UP")] /\
     forall url, ~ In (url, admin_status "DOWN") (puts tr)) /\
  (forall tr,
     exec (interface_shut_no_shut uuid (VStr "DOWN") mode) tr (inr tt) <->
     exists r1 resp1 task_id pending last,
       accepted r1 resp1 /\ task_id_of resp1 = inr task_id /\
       Forall (fun r => task_reply r (VStr "PENDING")) pending /\
       task_reply last (VStr "SUCCESS") /\
       tr = IoPut (interface_url uuid mode) (admin_status "UP") (Some r1)
            :: poll_trace (task_url task_id) pending last).
Proof.
  split.
  - intros tr x H. apply interface_shut_no_shut_DOWN_iff in H as (ans & tr' & -> & H).
    rewrite puts_cons_put.
    assert (Hpolls : puts tr' = []).
    { destruct (decoded ans) as [e | resp1]; [destruct H as [-> _]; reflexivity |].
      exact (poll_puts _ resp1 (poll_DOWN_turn_iff resp1) _ _ H). }
    rewrite Hpolls. split; [reflexivity |].
    intros url [Heq | []]. apply (f_equal snd) in Heq.
    apply admin_status_inj in Heq. discriminate.
  - intros tr. rewrite interface_shut_no_shut_DOWN_iff. split.
    + intros (ans & tr' & -> & H).
      destruct (decoded ans) as [e | resp1] eqn:Ed; [destruct H as [_ [=]] |].
      apply decoded_inr in Ed as (r1 & -> & Hr1).
      destruct (task_id_of resp1) as [e | task_id] eqn:Eid.
      * destruct (poll_without_task_id _ resp1 (poll_DOWN_turn_iff resp1) _ _ _ Eid H)
          as [_ [=]].
      * destruct (poll_returns_inv _ resp1 (poll_DOWN_turn_iff resp1) _ _ Eid H)
          as (pending & last & -> & Hp & Hl).
        exists r1, resp1, task_id, pending, last. auto.
    + intros (r1 & resp1 & task_id & pending & last & Hr1 & Eid & Hp & Hl & ->).
      exists (Some r1). eexists. split; [reflexivity |].
      replace (decoded (Some r1)) with (inr resp1 : result value)
        by (symmetry; apply decoded_inr; exists r1; auto).
      apply (poll_returns _ resp1 (poll_DOWN_turn_iff resp1)); assumption.
Qed.

(** ** The orchestrator on an interface that is ["UP"] *)

(** C1.  On an interface whose status is ["UP"], a finished run, however
    it ends, has either made the PUT that sets ["DOWN"] and no other, or
    made two PUTs, ["DOWN"] then ["UP"], with the poll loop in between:
    the first PUT was accepted, the lookups of its task answered PENDING
    some number of times and then SUCCESS, and the second PUT is the last
    call of the run.  The runs that return are exactly the runs of the
    second kind in which the answer to the second PUT passes the checks
    or is the tolerated HTTP error ([restored]); no task is looked up
    after the second PUT. *)
Theorem interface_shut_no_shut_UP_spec uuid mode :
  let url := interface_url uuid mode in
  let bounced tr r1 resp1 task_id pending last ans2 :=
    accepted r1 resp1 /\ task_id_of resp1 = inr task_id /\
    Forall (fun r => task_reply r (VStr "PENDING")) pending /\
    task_reply last (VStr "SUCCESS") /\
    tr = IoPut url (admin_status "DOWN") (Some r1)
         :: poll_trace (task_url task_id) pending last
         ++ [IoPut url (admin_status "UP") ans2] in
  (forall tr x,
     exec (interface_shut_no_shut uuid (VStr "UP") mode) tr x ->
     puts tr = [(url, admin_status "DOWN")] \/
     (puts tr = [(url, admin_status "DOWN"); (url, admin_status "UP")] /\
      exists r1 resp1 task_id pending last ans2,
        bounced tr r1 resp1 task_id pending last ans2)) /\
  (forall tr,
     exec (interface_shut_no_shut uuid (VStr "UP") mode) tr (inr tt) <->
     exists r1 resp1 task_id pending last r2,
       bounced tr r1 resp1 task_id pending last (Some r2) /\ restored r2).
Proof.
  intros url bounced.
  assert (Hpolled : forall resp1 polls,
            loop_run (poll_UP_turn resp1) polls (inr tt) ->
            exists task_id pending last,
              task_id_of resp1 = inr task_id /\
              Forall (fun r => task_reply r (VStr "PENDING")) pending /\
              task_reply last (VStr "SUCCESS") /\
              polls = poll_trace (task_url task_id) pending last).
  { intros resp1 polls H.
    destruct (task_id_of resp1) as [e | task_id] eqn:Eid.
    - destruct (poll_without_task_id _ resp1 (poll_UP_turn_iff resp1) _ _ _ Eid H)
        as [_ [=]].
    - destruct (poll_returns_inv _ resp1 (poll_UP_turn_iff resp1) _ _ Eid H)
        as (pending & last & -> & Hp & Hl).
      exists task_id, pending, last. auto. }
  split.
  - intros tr x H. apply interface_shut_no_shut_UP_iff in H as (ans & tr' & -> & H).
    rewrite puts_cons_put.
    destruct (decoded ans) as [e | resp1] eqn:Ed; [destruct H as [-> _]; auto |].
    destruct H as [(e & H & _) | (polls & ans2 & -> & H & _)].
    + left. rewrite (poll_puts _ resp1 (poll_UP_turn_iff resp1) _ _ H). reflexivity.
    + right. split.
      * rewrite puts_app, (poll_puts _ resp1 (poll_UP_turn_iff resp1) _ _ H).
        reflexivity.
      * apply decoded_inr in Ed as (r1 & -> & Hr1).
        destruct (Hpolled _ _ H) as (task_id & pending & last & Eid & Hp & Hl & ->).
        exists r1, resp1, task_id, pending, last, ans2.
        unfold bounced. auto.
  - intros tr. rewrite interface_shut_no_shut_UP_iff. split.
    + intros (ans & tr' & -> & H).
      destruct (decoded ans) as [e | resp1] eqn:Ed; [destruct H as [_ [=]] |].
      apply decoded_inr in Ed as (r1 & -> & Hr1).
      destruct H as [(e & _ & [=]) | (polls & ans2 & -> & H & Hx)].
      destruct (Hpolled _ _ H) as (task_id & pending & last & Eid & Hp & Hl & ->).
      unfold restore_outcome in Hx. destruct ans2 as [r2 |]; [| discriminate].
      exists r1, resp1, task_id, pending, last, r2.
      split; [unfold bounced; auto |]. unfold restored.
      destruct (is_http_error r2).
      * right. destruct (contains "No change in setting" (text r2));
          [auto | discriminate].
      * left. destruct (String.eqb (text r2) "") eqn:Et; [discriminate |].
        apply String.eqb_neq in Et. auto.
    + intros (r1 & resp1 & task_id & pending & last & r2
              & (Hr1 & Eid & Hp & Hl & ->) & Hr2).
      exists (Some r1). eexists. split; [reflexivity |].
      rewrite (decoded_accepted _ _ Hr1).
      right. exists (poll_trace (task_url task_id) pending last), (Some r2).
      repeat split.
      * apply (poll_returns _ resp1 (poll_UP_turn_iff resp1)); assumption.
      * unfold restore_outcome.
        destruct Hr2 as [[-> Ht] | [-> ->]]; [| reflexivity].
        apply String.eqb_neq in Ht. rewrite Ht. reflexivity.
Qed.

(** C2.  When the PUT that sets ["UP"] is answered with an HTTP error
    status, the ["UP"] branch returns if and only if the text of that
    response contains ["No change in setting"], and otherwise raises the
    [HTTPError] of that response to its caller.  The run is there: after
    an accepted first PUT and a task polled to SUCCESS, the call that
    gets this answer to its second PUT finishes, with that outcome; and
    every finished run in which the PUT of ["UP"] got this answer ends
    so. *)
Theorem interface_shut_no_shut_UP_http_error uuid mode r2 :
  is_http_error r2 = true ->
  let url := interface_url uuid mode in
  let outcome : result unit :=
    if contains "No change in setting" (text r2) then inr tt
    else inl (HTTPError r2) in
  (forall r1 resp1 task_id pending last,
     accepted r1 resp1 ->
     task_id_of resp1 = inr task_id ->
     Forall (fun r => task_reply r (VStr "PENDING")) pending ->
     task_reply last (VStr "SUCCESS") ->
     exec (interface_shut_no_shut uuid (VStr "UP") mode)
          (IoPut url (admin_status "DOWN") (Some r1)
           :: poll_trace (task_url task_id) pending last
           ++ [IoPut url (admin_status "UP") (Some r2)])
          outcome) /\
  (forall tr x url',
     exec (interface_shut_no_shut uuid (VStr "UP") mode) tr x ->
     In (IoPut url' (admin_status "UP") (Some r2)) tr ->
     (x = inr tt <-> contains "No change in setting" (text r2) = true) /\
     (contains "No change in setting" (text r2) = false -> x = inl (HTTPError r2))).
Proof.
  intros Hs url outcome.
  assert (Hout : restore_outcome (Some r2) = outcome).
  { unfold restore_outcome, outcome. rewrite Hs. reflexivity. }
  split.
  - intros r1 resp1 task_id pending last Hr1 Eid Hp Hl.
    apply interface_shut_no_shut_UP_iff.
    exists (Some r1). eexists. split; [reflexivity |].
    rewrite (decoded_accepted _ _ Hr1).
    right. exists (poll_trace (task_url task_id) pending last), (Some r2).
    split; [reflexivity |]. split; [| symmetry; exact Hout].
    apply (poll_returns _ resp1 (poll_UP_turn_iff resp1)); assumption.
  - intros tr x url' H Hin.
    apply interface_shut_no_shut_UP_iff in H as (ans & tr' & -> & H).
    destruct Hin as [Hst | Hin].
    { apply (f_equal (fun ev => match ev with IoPut _ js _ => js | _ => VNone end)) in Hst.
      apply admin_status_inj in Hst. discriminate. }
    assert (Hpoll : forall resp1 polls y,
              loop_run (poll_UP_turn resp1) polls y ->
              ~ In (IoPut url' (admin_status "UP") (Some r2)) polls).
    { intros resp1 polls y Hrun Hp. apply In_puts in Hp.
      rewrite (poll_puts _ resp1 (poll_UP_turn_iff resp1) _ _ Hrun) in Hp.
      exact Hp. }
    destruct (decoded ans) as [e | resp1]; [destruct H as [-> _]; destruct Hin |].
    destruct H as [(e & H & _) | (polls & ans2 & -> & H & ->)];
      [destruct (Hpoll _ _ _ H Hin) |].
    apply in_app_or in Hin as [Hin | [[= _ ->] | []]];
      [destruct (Hpoll _ _ _ H Hin) |].
    rewrite Hout. unfold outcome.
    destruct (contains "No change in setting" (text r2)).
    + split; [tauto | discriminate].
    + split; [split; discriminate | reflexivity].
Qed.

(** C10.  With a status that is neither the string ["DOWN"] nor the
    string ["UP"], [interface_shut_no_shut] has one finished run: it makes
    no call at all (no PUT, no task lookup) and returns. *)
Theorem interface_shut_no_shut_other_status uuid st mode :
  st <> VStr "DOWN" -> st <> VStr "UP" ->
  exec (interface_shut_no_shut uuid st mode) [] (inr tt) /\
  (forall tr x, exec (interface_shut_no_shut uuid st mode) tr x ->
                tr = [] /\ x = inr tt).
Proof.
  intros Hd Hu. split.
  - apply interface_shut_no_shut_other_iff; auto.
  - intros tr x H. apply interface_shut_no_shut_other_iff in H; assumption.
Qed.

(** ** The poll loop *)

(** C8.  Both poll loops, for a PUT response [resp1] that carries a task
    id: when the lookups answer PENDING, PENDING, SUCCESS the loop makes
    those three lookups with a one-second sleep after each of the first
    two, and returns; when they answer PENDING any number of times and
    then a status [st] that is neither PENDING nor SUCCESS, the loop ends
    with the task-failure exception, and the lookup that saw [st] is the
    last call of the run. *)
Theorem poll_loop_statuses resp1 task_id r1 r2 r3 pending last st :
  task_id_of resp1 = inr task_id ->
  task_reply r1 (VStr "PENDING") ->
  task_reply r2 (VStr "PENDING") ->
  task_reply r3 (VStr "SUCCESS") ->
  Forall (fun r => task_reply r (VStr "PENDING")) pending ->
  task_reply last st -> st <> VStr "PENDING" -> st <> VStr "SUCCESS" ->
  let url := task_url task_id in
  let three := [IoGet url (Some r1); IoSleep 1;
                IoGet url (Some r2); IoSleep 1;
                IoGet url (Some r3)] in
  let failing := flat_map (fun r => [IoGet url (Some r); IoSleep 1]) pending
                 ++ [IoGet url (Some last)] in
  (exec (poll_DOWN resp1) three (inr tt) /\
   exec (poll_UP resp1) three (inr tt) /\
   sleeps three = [1; 1]) /\
  (exec (poll_DOWN resp1) failing (inl task_failed) /\
   exec (poll_UP resp1) failing (inl task_failed)).
Proof.
  intros Eid H1 H2 H3 Hp Hl Hnp Hns url three failing.
  assert (H12 : Forall (fun r => task_reply r (VStr "PENDING")) [r1; r2])
    by (repeat constructor; assumption).
  repeat split.
  - apply exec_while_True_iff.
    exact (poll_returns _ resp1 (poll_DOWN_turn_iff resp1) _ _ _ Eid H12 H3).
  - apply exec_while_True_iff.
    exact (poll_returns _ resp1 (poll_UP_turn_iff resp1) _ _ _ Eid H12 H3).
  - apply exec_while_True_iff.
    exact (poll_fails _ resp1 (poll_DOWN_turn_iff resp1) _ _ _ _ Eid Hp Hl Hnp Hns).
  - apply exec_while_True_iff.
    exact (poll_fails _ resp1 (poll_UP_turn_iff resp1) _ _ _ _ Eid Hp Hl Hnp Hns).
Qed.

(** ** The resolvers *)

(** C9.  For a lookup response that passes the checks and decodes to an
    object whose [response] member is an object (or is missing, which
    [.get("response", {})] reads as the empty object):
    [get_interface_details] raises the resolution failure when [id] or
    [adminStatus] is missing or empty, and returns the pair
    [(id, adminStatus)] when both are there and not empty.  These are the
    only outcomes for that answer, so no pair with a missing or empty
    component is returned. *)
Theorem get_interface_details_spec parent name r m :
  accepted r (VDict m) ->
  match m !! "response" with
  | Some (VDict _) | None => True
  | Some _ => False
  end ->
  let response : gmap string value :=
    match m !! "response" with
    | Some (VDict d) => d
    | _ => ∅
    end in
  let run := exec (get_interface_details parent name)
                  [IoGet (interface_name_url parent name) (Some r)] in
  (present (response !! "id") = false \/ present (response !! "adminStatus") = false ->
   run (inl interface_not_located)) /\
  (forall id st,
     response !! "id" = Some id -> response !! "adminStatus" = Some st ->
     truthy id = true -> truthy st = true ->
     run (inr (id, st))) /\
  (forall x,
     run x ->
     x = inl interface_not_located \/
     exists id st,
       x = inr (id, st) /\
       response !! "id" = Some id /\ response !! "adminStatus" = Some st /\
       truthy id = true /\ truthy st = true).
Proof.
  intros Hr Hshape response run.
  assert (Hget : get (VDict m) "response" empty_dict = inr (VDict response)).
  { unfold get, empty_dict, response.
    destruct (m !! "response") as [[] |]; try destruct Hshape; reflexivity. }
  assert (Hrun : forall x,
    x = (let id := match response !! "id" with Some v => v | None => empty_dict end in
         let st := match response !! "adminStatus" with
                   | Some v => v
                   | None => empty_dict
                   end in
         if negb (truthy id) || negb (truthy st)
         then inl interface_not_located else inr (id, st)) ->
    run x).
  { intros x ->. unfold run, get_interface_details, interface_name_url.
    apply exec_request_get. exists (Some r), []. split; [reflexivity |].
    rewrite (decoded_accepted _ _ Hr).
    rewrite exec_bind_lift, Hget. rewrite exec_bind_lift. cbn [get].
    rewrite exec_bind_lift. rewrite exec_bind_lift. cbn [get]. cbv zeta.
    destruct (negb _ || negb _); [apply exec_raise_iff | apply exec_ret_iff]; auto. }
  split; [| split].
  - intros Hmiss. apply Hrun. cbv zeta.
    destruct (response !! "id") as [id |], (response !! "adminStatus") as [st |];
      cbn in Hmiss |- *;
      try reflexivity.
    + destruct Hmiss as [-> | ->]; cbn [negb];
        [reflexivity | rewrite orb_true_r; reflexivity].
    + destruct (truthy id); reflexivity.
  - intros id st Hid Hst Tid Tst. apply Hrun. rewrite Hid, Hst. cbv zeta.
    rewrite Tid, Tst. reflexivity.
  - intros x Hx.
    destruct (exec_det _ _ _ _ _ Hx (Hrun _ eq_refl) eq_refl) as [_ ->]. cbv zeta.
    destruct (response !! "id") as [id |]; [| left; reflexivity].
    destruct (truthy id) eqn:Tid; [| left; reflexivity].
    destruct (response !! "adminStatus") as [st |]; [| left; reflexivity].
    destruct (truthy st) eqn:Tst; [| left; reflexivity].
    right. exists id, st. auto.
Qed.

(** What [get_client_details] does after the response is decoded, when
    the first entry of [connectedDevice] has an [id]. *)
Lemma get_client_details_primary mac r m detail port first rest id :
  accepted r (VDict m) ->
  m !! "detail" = Some (VDict detail) ->
  detail !! "port" = Some port ->
  detail !! "connectedDevice" = Some (VList (VDict first :: rest)) ->
  first !! "id" = Some id ->
  truthy id = true ->
  exec (get_client_details mac) [IoGet (client_url mac) (Some r)] (inr (port, id)).
Proof.
  intros Hr Hd Hp Hcd Hid Tid. unfold get_client_details, client_url.
  apply exec_request_get. exists (Some r), []. split; [reflexivity |].
  rewrite (decoded_accepted _ _ Hr).
  rewrite exec_bind_lift. cbn [getitem]. rewrite Hd.
  rewrite exec_bind_lift. cbn [getitem]. rewrite Hp.
  apply exec_py_bind_iff. right. exists [], [], (Some id).
  split; [reflexivity |]. split.
  - apply exec_try_except_iff. left. exists (Some id). split; [| reflexivity].
    rewrite exec_bind_lift. cbn [get]. rewrite Hd.
    rewrite exec_bind_lift. cbn [get]. rewrite Hcd.
    rewrite exec_bind_lift. cbn [getindex lookup list_lookup].
    rewrite exec_bind_lift. cbn [getitem]. rewrite Hid.
    apply exec_ret_iff. auto.
  - rewrite exec_bind_lift. cbn [read_local]. rewrite Tid. cbn [negb].
    apply exec_ret_iff. auto.
Qed.

(** C5.  When the first entry of [connectedDevice] is an object whose
    [id] is not empty, [get_client_details] returns the [port] and that
    [id]; the [topology] member plays no part: the result is the same
    whatever is put in its place. *)
Theorem get_client_details_connected_device mac r m detail port first rest id :
  accepted r (VDict m) ->
  m !! "detail" = Some (VDict detail) ->
  detail !! "port" = Some port ->
  detail !! "connectedDevice" = Some (VList (VDict first :: rest)) ->
  first !! "id" = Some id ->
  truthy id = true ->
  exec (get_client_details mac) [IoGet (client_url mac) (Some r)] (inr (port, id)) /\
  (forall topology,
     exec (get_client_details mac)
          [IoGet (client_url mac)
                 (Some (with_body r (VDict (<[ "topology" := topology ]> m))))]
          (inr (port, id))).
Proof.
  intros Hr Hd Hp Hcd Hid Tid. split.
  - exact (get_client_details_primary mac r m detail port first rest id
             Hr Hd Hp Hcd Hid Tid).
  - intros topology.
    apply (get_client_details_primary mac _ (<[ "topology" := topology ]> m)
             detail port first rest id); try assumption.
    + destruct Hr as (Hs & Ht & _). repeat split; assumption.
    + rewrite lookup_insert_ne; [exact Hd | discriminate].
Qed.

(** The two ways [get_client_details] leaves its first [try] without a
    value: the [KeyError] of a missing [connectedDevice] is swallowed and
    the local stays unassigned; the [IndexError] of an empty list is not
    caught at all. *)
Lemma get_client_details_unassigned mac r m detail port :
  accepted r (VDict m) ->
  m !! "detail" = Some (VDict detail) ->
  detail !! "port" = Some port ->
  detail !! "connectedDevice" = None ->
  exec (get_client_details mac) [IoGet (client_url mac) (Some r)]
       (inl (UnboundLocalError "parent_device_uuid")).
Proof.
  intros Hr Hd Hp Hcd. unfold get_client_details, client_url.
  apply exec_request_get. exists (Some r), []. split; [reflexivity |].
  rewrite (decoded_accepted _ _ Hr).
  rewrite exec_bind_lift. cbn [getitem]. rewrite Hd.
  rewrite exec_bind_lift. cbn [getitem]. rewrite Hp.
  apply exec_py_bind_iff. right. exists [], [], None.
  split; [reflexivity |]. split.
  - apply exec_try_except_iff. right. right. exists [], [], KeyError. eexists.
    split; [reflexivity |]. split; [| split; [reflexivity | apply exec_ret_iff; auto]].
    rewrite exec_bind_lift. cbn [get]. rewrite Hd.
    rewrite exec_bind_lift. cbn [get]. rewrite Hcd.
    rewrite exec_bind_lift. cbn [getindex empty_dict]. auto.
  - rewrite exec_bind_lift. cbn [read_local]. auto.
Qed.

Lemma get_client_details_empty_list mac r m detail port :
  accepted r (VDict m) ->
  m !! "detail" = Some (VDict detail) ->
  detail !! "port" = Some port ->
  detail !! "connectedDevice" = Some (VList []) ->
  exec (get_client_details mac) [IoGet (client_url mac) (Some r)] (inl IndexError).
Proof.
  intros Hr Hd Hp Hcd. unfold get_client_details, client_url.
  apply exec_request_get. exists (Some r), []. split; [reflexivity |].
  rewrite (decoded_accepted _ _ Hr).
  rewrite exec_bind_lift. cbn [getitem]. rewrite Hd.
  rewrite exec_bind_lift. cbn [getitem]. rewrite Hp.
  apply exec_py_bind_iff. left. exists IndexError. split; [| reflexivity].
  apply exec_try_except_iff. right. left. exists IndexError.
  split; [| split; reflexivity].
  rewrite exec_bind_lift. cbn [get]. rewrite Hd.
  rewrite exec_bind_lift. cbn [get]. rewrite Hcd.
  rewrite exec_bind_lift. cbn [getindex lookup list_lookup]. auto.
Qed.

(** The fallback is reached only through a first entry whose [id] is
    there and empty; then the second node of the topology gives the id,
    and a list of at most one node is the resolution failure. *)
Lemma get_client_details_fallback mac r m detail port first rest id topology nodes :
  accepted r (VDict m) ->
  m !! "detail" = Some (VDict detail) ->
  detail !! "port" = Some port ->
  detail !! "connectedDevice" = Some (VList (VDict first :: rest)) ->
  first !! "id" = Some id ->
  truthy id = false ->
  m !! "topology" = Some (VDict topology) ->
  topology !! "nodes" = Some (VList nodes) ->
  exec (get_client_details mac) [IoGet (client_url mac) (Some r)]
       (match nodes with
        | _ :: VDict node :: _ =>
            inr (port, match node !! "id" with Some v => v | None => empty_dict end)
        | _ :: _ :: _ => inl AttributeError
        | _ => inl resolution_failed
        end).
Proof.
  intros Hr Hd Hp Hcd Hid Tid Ht Hn. unfold get_client_details, client_url.
  apply exec_request_get. exists (Some r), []. split; [reflexivity |].
  rewrite (decoded_accepted _ _ Hr).
  rewrite exec_bind_lift. cbn [getitem]. rewrite Hd.
  rewrite exec_bind_lift. cbn [getitem]. rewrite Hp.
  apply exec_py_bind_iff. right. exists [], [], (Some id).
  split; [reflexivity |]. split.
  { apply exec_try_except_iff. left. exists (Some id). split; [| reflexivity].
    rewrite exec_bind_lift. cbn [get]. rewrite Hd.
    rewrite exec_bind_lift. cbn [get]. rewrite Hcd.
    rewrite exec_bind_lift. cbn [getindex lookup list_lookup].
    rewrite exec_bind_lift. cbn [getitem]. rewrite Hid.
    apply exec_ret_iff. auto. }
  rewrite exec_bind_lift. cbn [read_local]. rewrite Tid. cbn [negb].
  assert (Htry : forall y,
    exec (topology <- lift (get (VDict m) "topology" empty_dict) ;;
          nodes <- lift (get topology "nodes" empty_dict) ;;
          n <- lift (len nodes) ;;
          (if (n <=? 1)%nat then raise resolution_failed else ret tt) ;;
          node <- lift (getindex nodes 1) ;;
          lift (get node "id" empty_dict)) [] y <->
    y = match nodes with
        | _ :: node :: _ => get node "id" empty_dict
        | _ => inl resolution_failed
        end).
  { intros y. rewrite exec_bind_lift. cbn [get]. rewrite Ht.
    rewrite exec_bind_lift. cbn [get]. rewrite Hn.
    rewrite exec_bind_lift. cbn [len].
    destruct nodes as [| n0 [| n1 nodes']]; cbn [List.length Nat.leb].
    - rewrite exec_py_bind_iff. split.
      + intros [(e & H & ->) | (tr1 & tr2 & [] & _ & H & _)];
          apply exec_raise_iff in H as [_ Hx];
          [injection Hx as ->; reflexivity | discriminate].
      + intros ->. left. exists resolution_failed. split; [| reflexivity].
        apply exec_raise_iff. auto.
    - rewrite exec_py_bind_iff. split.
      + intros [(e & H & ->) | (tr1 & tr2 & [] & _ & H & _)];
          apply exec_raise_iff in H as [_ Hx];
          [injection Hx as ->; reflexivity | discriminate].
      + intros ->. left. exists resolution_failed. split; [| reflexivity].
        apply exec_raise_iff. auto.
    - change (ret tt) with (lift (inr tt : result unit)).
      rewrite exec_bind_lift. rewrite exec_bind_lift.
      cbn [getindex lookup list_lookup]. rewrite exec_lift_iff.
      split; [intros [_ ->]; reflexivity | intros ->; auto]. }
  apply exec_py_bind_iff.
  destruct nodes as [| n0 [| n1 nodes']].
  - left. exists resolution_failed. split; [| reflexivity].
    apply exec_try_except_iff. right. left. exists resolution_failed.
    split; [apply Htry; reflexivity | split; reflexivity].
  - left. exists resolution_failed. split; [| reflexivity].
    apply exec_try_except_iff. right. left. exists resolution_failed.
    split; [apply Htry; reflexivity | split; reflexivity].
  - destruct n1 as [| b | n | f | s | l | node];
      try (left; exists AttributeError; split; [| reflexivity];
           apply exec_try_except_iff; right; left; exists AttributeError;
           split; [apply Htry; reflexivity | split; reflexivity]).
    right. eexists [], [], _. split; [reflexivity |]. split.
    + apply exec_try_except_iff. left. eexists. split; [| reflexivity].
      apply Htry. reflexivity.
    + apply exec_ret_iff. auto.
Qed.

(** C3 (the code departs from the specification).  With two topology
    nodes and no connected device, [get_client_details] never reaches the
    fallback: a response without [connectedDevice] ends in
    [UnboundLocalError], one with an empty [connectedDevice] list in
    [IndexError]; neither run returns the id of the second node. *)
Theorem get_client_details_fallback_unreached mac :
  let run r := exec (get_client_details mac) [IoGet (client_url mac) (Some r)] in
  run (client_without_connected two_nodes)
      (inl (UnboundLocalError "parent_device_uuid")) /\
  run (client_with_none_connected two_nodes) (inl IndexError) /\
  ~ run (client_without_connected two_nodes)
        (inr (VStr "GigabitEthernet1/0/3", VStr "switch-uuid")) /\
  ~ run (client_with_none_connected two_nodes)
        (inr (VStr "GigabitEthernet1/0/3", VStr "switch-uuid")).
Proof.
  intros run.
  assert (H1 : run (client_without_connected two_nodes)
                   (inl (UnboundLocalError "parent_device_uuid")))
    by (unfold run; run_trace).
  assert (H2 : run (client_with_none_connected two_nodes) (inl IndexError))
    by (unfold run; run_trace).
  repeat split; try assumption.
  - intros H. destruct (exec_det _ _ _ _ _ H1 H eq_refl) as [_ [=]].
  - intros H. destruct (exec_det _ _ _ _ _ H2 H eq_refl) as [_ [=]].
Qed.

(** C6 (the code departs from the specification).  With at most one
    topology node and no connected device, [get_client_details] fails,
    but not with the resolution failure: it ends in [UnboundLocalError]
    when [connectedDevice] is missing and in [IndexError] when it is an
    empty list, before the length of the node list is looked at. *)
Theorem get_client_details_short_topology mac :
  let run r := exec (get_client_details mac) [IoGet (client_url mac) (Some r)] in
  run (client_without_connected one_node)
      (inl (UnboundLocalError "parent_device_uuid")) /\
  run (client_with_none_connected one_node) (inl IndexError) /\
  ~ run (client_without_connected one_node) (inl resolution_failed) /\
  ~ run (client_with_none_connected one_node) (inl resolution_failed).
Proof.
  intros run.
  assert (H1 : run (client_without_connected one_node)
                   (inl (UnboundLocalError "parent_device_uuid")))
    by (unfold run; run_trace).
  assert (H2 : run (client_with_none_connected one_node) (inl IndexError))
    by (unfold run; run_trace).
  repeat split; try assumption.
  - intros H. destruct (exec_det _ _ _ _ _ H1 H eq_refl) as [_ [=]].
  - intros H. destruct (exec_det _ _ _ _ _ H2 H eq_refl) as [_ [=]].
Qed.

Lemma append_cancel (s a b : string) : s +:+ a = s +:+ b -> a = b.
Proof.
  induction s as [| c s IH]; intros H; [exact H |].
  apply IH. change (String c (s +:+ a) = String c (s +:+ b)) in H. congruence.
Qed.

(** C4 (the code departs from the specification).  [port_bounce] does
    not hand its [mode] on: called with ["Preview"] on the demonstration
    address, its one PUT goes to the URL with [deploymentMode=Deploy],
    which is not the URL for ["Preview"]; and the program of
    [port_bounce] is the same for every [mode]. *)
Theorem port_bounce_drops_mode :
  exec (port_bounce demo_mac "Preview") demo_trace (inr tt) /\
  puts demo_trace = [(interface_url (VStr "if-uuid") "Deploy", admin_status "UP")] /\
  interface_url (VStr "if-uuid") "Deploy" <> interface_url (VStr "if-uuid") "Preview" /\
  (forall mac mode, port_bounce mac mode = port_bounce mac "Deploy").
Proof.
  repeat split.
  - run_trace.
  - unfold interface_url. intros H. apply append_cancel in H. discriminate.
Qed.

(** ** Code that makes no call *)

Lemma pure_is_lift {A} (y : result A) : pure_is (lift y) y.
Proof. intros tr x. apply exec_lift_iff. Qed.

Lemma pure_is_ret {A} (a : A) : pure_is (ret a) (inr a).
Proof. intros tr x. apply exec_ret_iff. Qed.

Lemma pure_is_raise {A} (e : py_exn) : pure_is (raise e : prog A) (inl e).
Proof. intros tr x. apply exec_raise_iff. Qed.

Lemma pure_is_bind {A B} (m : prog A) (k : A -> prog B) y (f : A -> result B) :
  pure_is m y ->
  (forall a, y = inr a -> pure_is (k a) (f a)) ->
  pure_is (bind m k) (and_then y f).
Proof.
  intros Hm Hk tr x. rewrite exec_py_bind_iff. split.
  - intros [(e & H & ->) | (tr1 & tr2 & a & -> & H & H2)];
      apply Hm in H as [-> <-]; [auto |].
    apply (Hk a eq_refl) in H2 as [-> ->]. auto.
  - intros [-> ->]. destruct y as [e | a]; cbn.
    + left. exists e. split; [apply Hm; auto | reflexivity].
    + right. exists [], [], a. split; [reflexivity |].
      split; [apply Hm; auto | apply (Hk a eq_refl); auto].
Qed.

Lemma pure_is_try_except {A} (body : prog A) y
    (handler : py_exn -> option (prog A)) (h : py_exn -> option (result A)) :
  pure_is body y ->
  (forall e, y = inl e ->
     match handler e, h e with
     | Some p, Some z => pure_is p z
     | None, None => True
     | _, _ => False
     end) ->
  pure_is (try_except body handler) (catch y h).
Proof.
  intros Hb Hh tr x. rewrite exec_try_except_iff. split.
  - intros [(a & H & ->) | [(e & H & Eh & ->) | (tr1 & tr2 & e & p & -> & H & Eh & Hp)]];
      apply Hb in H as [-> <-]; cbn; [auto | |].
    + specialize (Hh e eq_refl). rewrite Eh in Hh.
      destruct (h e); [destruct Hh | auto].
    + specialize (Hh e eq_refl). rewrite Eh in Hh.
      destruct (h e) as [z |]; [| destruct Hh]. apply Hh in Hp as [-> ->]. auto.
  - intros [-> ->]. destruct y as [e | a]; cbn.
    + specialize (Hh e eq_refl).
      destruct (handler e) as [p |] eqn:Eh, (h e) as [z |]; try destruct Hh.
      * right. right. exists [], [], e, p.
        split; [reflexivity |]. split; [apply Hb; auto |].
        split; [exact Eh | apply Hh; auto].
      * right. left. exists e. split; [apply Hb; auto | auto].
    + left. exists a. split; [apply Hb; auto | reflexivity].
Qed.

Lemma pure_is_if {A} (b : bool) (t u : prog A) y z :
  pure_is t y -> pure_is u z -> pure_is (if b then t else u) (if b then y else z).
Proof. destruct b; auto. Qed.

(** The decoded body is all the rest of a resolver depends on. *)
Lemma exec_request_get_pure {B} url (k : value -> prog B) (f : value -> result B) tr x :
  (forall j, pure_is (k j) (f j)) ->
  exec (r <- s_get url ;;
        raise_for_status r ;;
        (if String.eqb (text r) "" then raise (Exception "Empty Response from the server.")
         else ret tt) ;;
        json_resp <- json r ;;
        k json_resp) tr x <->
  exists ans, tr = [IoGet url ans] /\ x = and_then (decoded ans) f.
Proof.
  intros Hk. rewrite exec_request_get. split.
  - intros (ans & tr' & -> & H). exists ans.
    destruct (decoded ans) as [e | j]; cbn.
    + destruct H as [-> ->]. auto.
    + apply Hk in H as [-> ->]. auto.
  - intros (ans & -> & ->). exists ans, []. split; [reflexivity |].
    destruct (decoded ans) as [e | j]; cbn; [auto |]. apply Hk. auto.
Qed.

Lemma primary_parent_pure json_resp :
  pure_is
    (try_except
       (d <- lift (get json_resp "detail" empty_dict) ;;
        cd <- lift (get d "connectedDevice" empty_dict) ;;
        first <- lift (getindex cd 0) ;;
        id <- lift (getitem first "id") ;;
        ret (Some id))
       (fun e => match e with
                 | KeyError => Some (ret None)
                 | _ => None
                 end))
    (primary_parent json_resp).
Proof.
  apply pure_is_try_except.
  - repeat (apply pure_is_bind; [apply pure_is_lift | intros ? _]).
    apply pure_is_ret.
  - intros e _. destruct e; try exact I. apply pure_is_ret.
Qed.

Lemma topology_parent_pure json_resp :
  pure_is
    (try_except
       (topology <- lift (get json_resp "topology" empty_dict) ;;
        nodes <- lift (get topology "nodes" empty_dict) ;;
        n <- lift (len nodes) ;;
        (if (n <=? 1)%nat then raise resolution_failed else ret tt) ;;
        node <- lift (getindex nodes 1) ;;
        lift (get node "id" empty_dict))
       (fun e => match e with
                 | KeyError | IndexError => Some (raise resolution_failed)
                 | _ => None
                 end))
    (topology_parent json_resp).
Proof.
  apply pure_is_try_except.
  - do 3 (apply pure_is_bind; [apply pure_is_lift | intros ? _]).
    apply pure_is_bind; [apply pure_is_if; [apply pure_is_raise | apply pure_is_ret] |].
    intros _ _. apply pure_is_bind; [apply pure_is_lift | intros ? _].
    apply pure_is_lift.
  - intros e _. destruct e; try exact I; apply pure_is_raise.
Qed.

Lemma get_client_details_iff mac tr x :
  exec (get_client_details mac) tr x <->
  exists ans, tr = [IoGet (client_url mac) ans] /\
              x = and_then (decoded ans) client_of_json.
Proof.
  unfold get_client_details, client_url. apply exec_request_get_pure.
  intros j. unfold client_of_json.
  do 2 (apply pure_is_bind; [apply pure_is_lift | intros ? _]).
  apply pure_is_bind; [apply primary_parent_pure | intros ? _].
  apply pure_is_bind; [apply pure_is_lift | intros ? _].
  apply pure_is_if; [| apply pure_is_ret].
  apply pure_is_bind; [apply topology_parent_pure | intros ? _].
  apply pure_is_ret.
Qed.

Lemma get_interface_details_iff parent name tr x :
  exec (get_interface_details parent name) tr x <->
  exists ans, tr = [IoGet (interface_name_url parent name) ans] /\
              x = and_then (decoded ans) interface_of_json.
Proof.
  unfold get_interface_details, interface_name_url. apply exec_request_get_pure.
  intros j. unfold interface_of_json.
  do 4 (apply pure_is_bind; [apply pure_is_lift | intros ? _]).
  apply pure_is_if; [apply pure_is_raise | apply pure_is_ret].
Qed.

Lemma exec_bind_ret_r {A} (m : prog A) tr x :
  exec (a <- m ;; ret a) tr x <-> exec m tr x.
Proof.
  rewrite exec_py_bind_iff. split.
  - intros [(e & H & ->) | (tr1 & tr2 & a & -> & H & Hr)]; [exact H |].
    apply exec_ret_iff in Hr as [-> ->]. rewrite app_nil_r. exact H.
  - destruct x as [e | a]; intros H.
    + left. exists e. auto.
    + right. exists tr, [], a. rewrite app_nil_r. repeat split; [exact H |].
      apply exec_ret_iff. auto.
Qed.

Lemma lookup_task_iff task_id tr x :
  exec (lookup_task task_id) tr x <->
  exists ans, tr = [IoGet (task_url task_id) ans] /\ x = decoded ans.
Proof.
  rewrite <- exec_bind_ret_r, exec_bind_lookup_task. split.
  - intros (ans & tr' & -> & H). exists ans.
    destruct (decoded ans) as [e | j]; [destruct H as [-> ->]; auto |].
    apply exec_ret_iff in H as [-> ->]. auto.
  - intros (ans & -> & ->). exists ans, []. split; [reflexivity |].
    destruct (decoded ans) as [e | j]; [auto | apply exec_ret_iff; auto].
Qed.

Lemma decoded_checked {A} ans (f : value -> result A) :
  request_checked ans (and_then (decoded ans) f).
Proof.
  unfold request_checked, decoded. destruct ans as [r |]; [| reflexivity].
  destruct (is_http_error r); [repeat split; intros; congruence |].
  destruct (String.eqb (text r) "") eqn:Et.
  - apply String.eqb_eq in Et. repeat split; intros; congruence.
  - apply String.eqb_neq in Et. repeat split; intros; try congruence.
    replace (body r) with (@None value) by congruence. reflexivity.
Qed.

(** ** More on the resolvers *)

(** X1.  Each of the three reading functions makes one call in every
    finished run, the GET of its own URL, and nothing else (no PUT, no
    sleep); when the answer does not pass the checks after the request,
    the run ends with that failure: [RequestException], the [HTTPError]
    of the response, the empty-response exception or [JSONDecodeError]. *)
Theorem readers_make_one_get :
  (forall mac tr x,
     exec (get_client_details mac) tr x ->
     exists ans, tr = [IoGet (client_url mac) ans] /\ request_checked ans x) /\
  (forall parent name tr x,
     exec (get_interface_details parent name) tr x ->
     exists ans, tr = [IoGet (interface_name_url parent name) ans] /\
                 request_checked ans x) /\
  (forall task_id tr x,
     exec (lookup_task task_id) tr x ->
     exists ans, tr = [IoGet (task_url task_id) ans] /\ request_checked ans x).
Proof.
  repeat split.
  - intros mac tr x H. apply get_client_details_iff in H as (ans & -> & ->).
    exists ans. split; [reflexivity | apply decoded_checked].
  - intros parent name tr x H.
    apply get_interface_details_iff in H as (ans & -> & ->).
    exists ans. split; [reflexivity | apply decoded_checked].
  - intros task_id tr x H. apply lookup_task_iff in H as (ans & -> & ->).
    exists ans. split; [reflexivity |].
    replace (decoded ans) with (and_then (decoded ans) (fun j => inr j : result value))
      by (destruct (decoded ans); reflexivity).
    apply decoded_checked.
Qed.

(** X2.  [lookup_task] returns the decoded body as it is, whatever its
    shape: the runs that return [j] are exactly the single GETs answered
    by a response that passes the checks and decodes to [j]. *)
Theorem lookup_task_returns_body task_id tr j :
  exec (lookup_task task_id) tr (inr j) <->
  exists r, tr = [IoGet (task_url task_id) (Some r)] /\ accepted r j.
Proof.
  rewrite lookup_task_iff. split.
  - intros (ans & -> & Hd). symmetry in Hd.
    apply decoded_inr in Hd as (r & -> & Hr). exists r. auto.
  - intros (r & -> & Hr). exists (Some r). split; [reflexivity |].
    symmetry. apply decoded_accepted. exact Hr.
Qed.

(** X3.  The interface name has no fallback: when the decoded object has
    no [detail] member, or [detail] has no [port], [get_client_details]
    ends with [KeyError], whatever [connectedDevice] and [topology]
    hold. *)
Theorem get_client_details_port_required mac r m :
  accepted r (VDict m) ->
  m !! "detail" = None \/
  (exists detail, m !! "detail" = Some (VDict detail) /\ detail !! "port" = None) ->
  exec (get_client_details mac) [IoGet (client_url mac) (Some r)] (inl KeyError).
Proof.
  intros Hr Hmiss. apply get_client_details_iff. exists (Some r).
  split; [reflexivity |]. rewrite (decoded_accepted _ _ Hr).
  unfold client_of_json. cbn [and_then getitem].
  destruct Hmiss as [-> | (detail & -> & Hp)]; [reflexivity |].
  cbn [and_then getitem]. rewrite Hp. reflexivity.
Qed.

(** What [get_client_details] returns once the first entry of
    [connectedDevice] has an empty [id]: the outcome of the fallback. *)
Lemma get_client_details_empty_id mac r m detail port first rest id :
  accepted r (VDict m) ->
  m !! "detail" = Some (VDict detail) ->
  detail !! "port" = Some port ->
  detail !! "connectedDevice" = Some (VList (VDict first :: rest)) ->
  first !! "id" = Some id ->
  truthy id = false ->
  exec (get_client_details mac) [IoGet (client_url mac) (Some r)]
       (and_then (topology_parent (VDict m)) (fun p => inr (port, p))).
Proof.
  intros Hr Hd Hp Hcd Hid Tid. apply get_client_details_iff. exists (Some r).
  split; [reflexivity |]. rewrite (decoded_accepted _ _ Hr).
  unfold client_of_json, primary_parent.
  cbn [and_then getitem get catch]. rewrite Hd.
  cbn [and_then getitem get catch]. rewrite Hp, Hcd.
  cbn [and_then getitem getindex lookup list_lookup catch]. rewrite Hid.
  cbn [and_then catch read_local]. rewrite Tid. reflexivity.
Qed.

(** X4.  The fallback of [get_client_details], reached when the first
    connected device has an empty [id]: with at least two topology nodes
    of which the second is an object with an [id], that [id] is returned
    with the port; with a node list of at most one node, or no
    [topology] member at all, the run ends with the resolution
    failure. *)
Theorem get_client_details_fallback_spec mac r m detail port first rest id :
  accepted r (VDict m) ->
  m !! "detail" = Some (VDict detail) ->
  detail !! "port" = Some port ->
  detail !! "connectedDevice" = Some (VList (VDict first :: rest)) ->
  first !! "id" = Some id ->
  truthy id = false ->
  let run := exec (get_client_details mac) [IoGet (client_url mac) (Some r)] in
  (forall topology n0 node more parent,
     m !! "topology" = Some (VDict topology) ->
     topology !! "nodes" = Some (VList (n0 :: VDict node :: more)) ->
     node !! "id" = Some parent ->
     run (inr (port, parent))) /\
  (forall topology nodes,
     m !! "topology" = Some (VDict topology) ->
     topology !! "nodes" = Some (VList nodes) ->
     (List.length nodes <= 1)%nat ->
     run (inl resolution_failed)) /\
  (m !! "topology" = None -> run (inl resolution_failed)).
Proof.
  intros Hr Hd Hp Hcd Hid Tid run.
  pose proof (get_client_details_empty_id mac r m detail port first rest id
                Hr Hd Hp Hcd Hid Tid) as H.
  fold run in H. unfold topology_parent in H. cbn [get and_then] in H.
  repeat split.
  - intros topology n0 node more parent Ht Hn Hnode. rewrite Ht in H.
    cbn [get and_then] in H. rewrite Hn in H.
    cbn [and_then len List.length Nat.leb getindex lookup list_lookup get catch] in H.
    rewrite Hnode in H. exact H.
  - intros topology nodes Ht Hn Hlen. rewrite Ht in H.
    cbn [get and_then] in H. rewrite Hn in H. cbn [and_then len] in H.
    destruct nodes as [| n0 [| n1 nodes']]; [exact H | exact H |].
    cbn in Hlen. lia.
  - intros Ht. rewrite Ht in H. exact H.
Qed.

(** X5.  The fallback does not check what it found: when the second
    topology node is an object without an [id], [get_client_details]
    returns normally, with the empty [dict] in the place of the parent
    device id. *)
Theorem get_client_details_fallback_empty mac r m detail port first rest id
    topology n0 node more :
  accepted r (VDict m) ->
  m !! "detail" = Some (VDict detail) ->
  detail !! "port" = Some port ->
  detail !! "connectedDevice" = Some (VList (VDict first :: rest)) ->
  first !! "id" = Some id ->
  truthy id = false ->
  m !! "topology" = Some (VDict topology) ->
  topology !! "nodes" = Some (VList (n0 :: VDict node :: more)) ->
  node !! "id" = None ->
  exec (get_client_details mac) [IoGet (client_url mac) (Some r)]
       (inr (port, empty_dict)) /\
  truthy empty_dict = false.
Proof.
  intros Hr Hd Hp Hcd Hid Tid Ht Hn Hnode. split; [| reflexivity].
  pose proof (get_client_details_empty_id mac r m detail port first rest id
                Hr Hd Hp Hcd Hid Tid) as H.
  unfold topology_parent in H. cbn [get and_then] in H. rewrite Ht in H.
  cbn [get and_then] in H. rewrite Hn in H.
  cbn [and_then len List.length Nat.leb getindex lookup list_lookup get catch] in H.
  rewrite Hnode in H. exact H.
Qed.

(** X6.  A pair returned by [get_interface_details] is never partial:
    both the interface id and the status are not empty, and they are the
    [id] and [adminStatus] that [.get] read from the [response] member of
    a body that passed the checks.  The status is not compared with "UP"
    or "DOWN" here. *)
Theorem get_interface_details_returns parent name tr id st :
  exec (get_interface_details parent name) tr (inr (id, st)) ->
  truthy id = true /\ truthy st = true /\
  exists r j response,
    tr = [IoGet (interface_name_url parent name) (Some r)] /\
    accepted r j /\
    get j "response" empty_dict = inr response /\
    get response "id" empty_dict = inr id /\
    get response "adminStatus" empty_dict = inr st.
Proof.
  intros H. apply get_interface_details_iff in H as (ans & -> & H).
  destruct (decoded ans) as [e | j] eqn:Ed; [discriminate |].
  apply decoded_inr in Ed as (r & -> & Hr).
  unfold interface_of_json in H. cbn [and_then] in H.
  destruct (get j "response" empty_dict) as [e | response] eqn:Eresp; [discriminate |].
  cbn [and_then] in H.
  destruct (get response "id" empty_dict) as [e | id'] eqn:Eid; [discriminate |].
  cbn [and_then] in H.
  destruct (get response "adminStatus" empty_dict) as [e | st'] eqn:Est; [discriminate |].
  cbn [and_then] in H.
  destruct (truthy id') eqn:Tid, (truthy st') eqn:Tst; try discriminate.
  injection H as -> ->.
  split; [exact Tid |]. split; [exact Tst |].
  exists r, j, response. auto.
Qed.

(** X7.  [get_interface_details] reads with [.get], which only a [dict]
    has: when the decoded body is not an object, or its [response] member
    is there and is not an object (a [null], a list), the run ends with
    [AttributeError], not with the resolution failure. *)
Theorem get_interface_details_not_an_object parent name r j :
  accepted r j ->
  is_dict j = false \/
  (exists m v, j = VDict m /\ m !! "response" = Some v /\ is_dict v = false) ->
  exec (get_interface_details parent name)
       [IoGet (interface_name_url parent name) (Some r)] (inl AttributeError).
Proof.
  intros Hr Hshape. apply get_interface_details_iff. exists (Some r).
  split; [reflexivity |]. rewrite (decoded_accepted _ _ Hr).
  unfold interface_of_json. cbn [and_then].
  destruct Hshape as [Hj | (m & v & -> & Hv & Hd)].
  - destruct j; try discriminate; reflexivity.
  - cbn [get and_then]. rewrite Hv. destruct v; try discriminate; reflexivity.
Qed.

(** ** More on the poll loops and the orchestrator *)

Lemma sleeps_app tr1 tr2 : sleeps (tr1 ++ tr2) = sleeps tr1 ++ sleeps tr2.
Proof. apply flat_map_app. Qed.

Lemma turn_outcome_error ans e :
  decoded ans = inl e \/
  (exists r j, ans = Some r /\ accepted r j /\ task_status j = inl e) ->
  turn_outcome ans = inl e.
Proof.
  unfold turn_outcome. intros [-> | (r & j & -> & Hr & Hst)]; [reflexivity |].
  rewrite (decoded_accepted _ _ Hr), Hst. reflexivity.
Qed.

Section PollMore.

Variable body : prog loop_exit.
Variable resp1 : value.
Hypothesis body_spec : forall tr o, exec body tr o <-> turn_spec resp1 tr o.

Lemma poll_sleeps tr x : loop_run body tr x -> Forall (eq 1) (sleeps tr).
Proof using body_spec.
  assert (Hturn : forall tr o, exec body tr o -> Forall (eq 1) (sleeps tr)).
  { intros tr0 o H. apply body_spec in H. unfold turn_spec in H.
    destruct (task_id_of resp1) as [e | task_id].
    - destruct H as [-> _]. constructor.
    - destruct H as (ans & _ & ->). destruct o as [e | []]; repeat constructor. }
  induction 1 as [tr e H | tr H | tr1 tr2 x H _ IH]; eauto.
  rewrite sleeps_app. apply Forall_app. eauto.
Qed.


Lemma poll_error task_id pending ans e :
  task_id_of resp1 = inr task_id ->
  Forall (fun r => task_reply r (VStr "PENDING")) pending ->
  turn_outcome ans = inl e ->
  loop_run body
    (flat_map (fun r => [IoGet (task_url task_id) (Some r); IoSleep 1]) pending
     ++ [IoGet (task_url task_id) ans]) (inl e).
Proof using body_spec.
  intros Hid Hp He. apply (poll_pending body resp1 body_spec); try assumption.
  apply loop_raise, body_spec. unfold turn_spec. rewrite Hid. exists ans.
  rewrite He. auto.
Qed.

End PollMore.

Lemma loop_run_ext (b1 b2 : prog loop_exit) tr x :
  (forall tr o, exec b1 tr o <-> exec b2 tr o) ->
  loop_run b1 tr x -> loop_run b2 tr x.
Proof.
  intros Hb. induction 1 as [tr e H | tr H | tr1 tr2 x H _ IH].
  - apply loop_raise, Hb, H.
  - apply loop_break, Hb, H.
  - apply loop_continue; [apply Hb, H | exact IH].
Qed.

(** The three ways the status sends [interface_shut_no_shut]. *)
Lemma interface_shut_no_shut_cases uuid st mode tr x :
  exec (interface_shut_no_shut uuid st mode) tr x ->
  (st = VStr "DOWN" /\ exec (interface_shut_no_shut uuid (VStr "DOWN") mode) tr x) \/
  (st = VStr "UP" /\ exec (interface_shut_no_shut uuid (VStr "UP") mode) tr x) \/
  (tr = [] /\ x = inr tt).
Proof.
  intros H. destruct (eq_str st "DOWN") eqn:Ed.
  - apply eq_str_true in Ed as ->. auto.
  - destruct (eq_str st "UP") eqn:Eu.
    + apply eq_str_true in Eu as ->. auto.
    + apply eq_str_false in Ed, Eu. right. right.
      apply (interface_shut_no_shut_other_iff uuid st mode); assumption.
Qed.

(** X8.  [interface_shut_no_shut] hands [mode] to the controller as it
    is: every PUT of every finished run, whatever the status, goes to the
    URL built from the interface id and that [mode], and two modes never
    give the same URL. *)
Theorem interface_shut_no_shut_mode_verbatim uuid :
  (forall st mode tr x,
     exec (interface_shut_no_shut uuid st mode) tr x ->
     Forall (fun put => fst put = interface_url uuid mode) (puts tr)) /\
  (forall mode1 mode2,
     interface_url uuid mode1 = interface_url uuid mode2 -> mode1 = mode2).
Proof.
  split.
  - intros st mode tr x H.
    apply interface_shut_no_shut_cases in H as [[_ H] | [[_ H] | [-> _]]];
      [| | constructor].
    + apply interface_shut_no_shut_DOWN_iff in H as (ans & tr' & -> & H).
      rewrite puts_cons_put. constructor; [reflexivity |].
      destruct (decoded ans) as [e | resp1]; [destruct H as [-> _]; constructor |].
      rewrite (poll_puts _ resp1 (poll_DOWN_turn_iff resp1) _ _ H). constructor.
    + apply interface_shut_no_shut_UP_iff in H as (ans & tr' & -> & H).
      rewrite puts_cons_put. constructor; [reflexivity |].
      destruct (decoded ans) as [e | resp1]; [destruct H as [-> _]; constructor |].
      destruct H as [(e & H & _) | (polls & ans2 & -> & H & _)];
        [rewrite (poll_puts _ resp1 (poll_UP_turn_iff resp1) _ _ H); constructor |].
      rewrite puts_app, (poll_puts _ resp1 (poll_UP_turn_iff resp1) _ _ H).
      repeat constructor.
  - intros mode1 mode2 H. unfold interface_url in H.
    do 4 apply append_cancel in H. exact H.
Qed.

(** X9.  The tolerance for "No change in setting" is for the second PUT
    of the "UP" branch only: in any finished run that begins with a PUT
    answered by an HTTP error status, that PUT is the whole run and the
    run ends with the [HTTPError] of the response, whatever its text. *)
Theorem interface_shut_no_shut_first_put_rejected uuid st mode url js r rest x :
  exec (interface_shut_no_shut uuid st mode) (IoPut url js (Some r) :: rest) x ->
  is_http_error r = true ->
  rest = [] /\ x = inl (HTTPError r).
Proof.
  intros H Hs.
  assert (Hd : decoded (Some r) = inl (HTTPError r))
    by (unfold decoded; rewrite Hs; reflexivity).
  apply interface_shut_no_shut_cases in H as [[_ H] | [[_ H] | [[=] _]]].
  - apply interface_shut_no_shut_DOWN_iff in H as (ans & tr' & Htr & H).
    injection Htr as _ _ <- <-. rewrite Hd in H. exact H.
  - apply interface_shut_no_shut_UP_iff in H as (ans & tr' & Htr & H).
    injection Htr as _ _ <- <-. rewrite Hd in H. exact H.
Qed.

(** X10.  When the accepted answer to the first PUT carries no task id
    (the subscripts [resp1["response"]["taskId"]] raise [e]: [KeyError]
    for a missing member, [TypeError] for a body that is not an object),
    both branches end with [e] right after that PUT: no task is looked
    up and, in the "UP" branch, the interface is not set back. *)
Theorem interface_shut_no_shut_no_task_id uuid mode r1 resp1 e :
  accepted r1 resp1 ->
  task_id_of resp1 = inl e ->
  exec (interface_shut_no_shut uuid (VStr "DOWN") mode)
       [IoPut (interface_url uuid mode) (admin_status "UP") (Some r1)] (inl e) /\
  exec (interface_shut_no_shut uuid (VStr "UP") mode)
       [IoPut (interface_url uuid mode) (admin_status "DOWN") (Some r1)] (inl e).
Proof.
  intros Hr He. split.
  - apply interface_shut_no_shut_DOWN_iff. exists (Some r1), [].
    split; [reflexivity |]. rewrite (decoded_accepted _ _ Hr).
    apply loop_raise, poll_DOWN_turn_iff. unfold turn_spec. rewrite He. auto.
  - apply interface_shut_no_shut_UP_iff. exists (Some r1), [].
    split; [reflexivity |]. rewrite (decoded_accepted _ _ Hr).
    left. exists e. split; [| reflexivity].
    apply loop_raise, poll_UP_turn_iff. unfold turn_spec. rewrite He. auto.
Qed.

(** X11.  No compensation after a failed task: when the lookups answer
    PENDING some number of times and then a status that is neither
    PENDING nor SUCCESS, both branches end with the task failure at that
    lookup; in the "UP" branch the PUT that set "DOWN" is then the only
    PUT of the run. *)
Theorem interface_shut_no_shut_task_failed uuid mode r1 resp1 task_id pending last st :
  accepted r1 resp1 ->
  task_id_of resp1 = inr task_id ->
  Forall (fun r => task_reply r (VStr "PENDING")) pending ->
  task_reply last st -> st <> VStr "PENDING" -> st <> VStr "SUCCESS" ->
  let url := interface_url uuid mode in
  let polls := poll_trace (task_url task_id) pending last in
  exec (interface_shut_no_shut uuid (VStr "DOWN") mode)
       (IoPut url (admin_status "UP") (Some r1) :: polls) (inl task_failed) /\
  exec (interface_shut_no_shut uuid (VStr "UP") mode)
       (IoPut url (admin_status "DOWN") (Some r1) :: polls) (inl task_failed) /\
  puts (IoPut url (admin_status "DOWN") (Some r1) :: polls)
  = [(url, admin_status "DOWN")].
Proof.
  intros Hr Hid Hp Hl Hnp Hns url polls. split; [| split].
  - apply interface_shut_no_shut_DOWN_iff. exists (Some r1), polls.
    split; [reflexivity |]. rewrite (decoded_accepted _ _ Hr).
    apply (poll_fails _ resp1 (poll_DOWN_turn_iff resp1) _ _ _ st); assumption.
  - apply interface_shut_no_shut_UP_iff. exists (Some r1), polls.
    split; [reflexivity |]. rewrite (decoded_accepted _ _ Hr).
    left. exists task_failed. split; [| reflexivity].
    apply (poll_fails _ resp1 (poll_UP_turn_iff resp1) _ _ _ st); assumption.
  - rewrite puts_cons_put. unfold polls. rewrite puts_poll_trace. reflexivity.
Qed.

(** X12.  A lookup that fails ends the orchestrator with the failure of
    the lookup: when, after some PENDING answers, the answer to a lookup
    does not pass the checks of [lookup_task], or its body has no
    [response]/[status] to read, both branches end with that exception
    at that lookup, the "UP" branch again without its second PUT. *)
Theorem interface_shut_no_shut_lookup_failed uuid mode r1 resp1 task_id pending ans e :
  accepted r1 resp1 ->
  task_id_of resp1 = inr task_id ->
  Forall (fun r => task_reply r (VStr "PENDING")) pending ->
  decoded ans = inl e \/
  (exists r j, ans = Some r /\ accepted r j /\ task_status j = inl e) ->
  let url := interface_url uuid mode in
  let polls := flat_map (fun r => [IoGet (task_url task_id) (Some r); IoSleep 1]) pending
               ++ [IoGet (task_url task_id) ans] in
  exec (interface_shut_no_shut uuid (VStr "DOWN") mode)
       (IoPut url (admin_status "UP") (Some r1) :: polls) (inl e) /\
  exec (interface_shut_no_shut uuid (VStr "UP") mode)
       (IoPut url (admin_status "DOWN") (Some r1) :: polls) (inl e).
Proof.
  intros Hr Hid Hp He url polls. apply turn_outcome_error in He. split.
  - apply interface_shut_no_shut_DOWN_iff. exists (Some r1), polls.
    split; [reflexivity |]. rewrite (decoded_accepted _ _ Hr).
    apply (poll_error _ resp1 (poll_DOWN_turn_iff resp1)); assumption.
  - apply interface_shut_no_shut_UP_iff. exists (Some r1), polls.
    split; [reflexivity |]. rewrite (decoded_accepted _ _ Hr).
    left. exists e. split; [| reflexivity].
    apply (poll_error _ resp1 (poll_UP_turn_iff resp1)); assumption.
Qed.

(** X13.  The delay between two polls is fixed: every sleep of every
    finished run of [interface_shut_no_shut] is of one second. *)
Theorem interface_shut_no_shut_sleeps_one_second uuid st mode tr x :
  exec (interface_shut_no_shut uuid st mode) tr x ->
  Forall (eq 1) (sleeps tr).
Proof.
  intros H.
  apply interface_shut_no_shut_cases in H as [[_ H] | [[_ H] | [-> _]]];
    [| | constructor].
  - apply interface_shut_no_shut_DOWN_iff in H as (ans & tr' & -> & H).
    change (Forall (eq 1) (sleeps tr')).
    destruct (decoded ans) as [e | resp1]; [destruct H as [-> _]; constructor |].
    exact (poll_sleeps _ resp1 (poll_DOWN_turn_iff resp1) _ _ H).
  - apply interface_shut_no_shut_UP_iff in H as (ans & tr' & -> & H).
    change (Forall (eq 1) (sleeps tr')).
    destruct (decoded ans) as [e | resp1]; [destruct H as [-> _]; constructor |].
    destruct H as [(e & H & _) | (polls & ans2 & -> & H & _)].
    + exact (poll_sleeps _ resp1 (poll_UP_turn_iff resp1) _ _ H).
    + rewrite sleeps_app. apply Forall_app. split; [| constructor].
      exact (poll_sleeps _ resp1 (poll_UP_turn_iff resp1) _ _ H).
Qed.

(** X14.  The poll loop has no bound on its turns: for every [n] there is
    a run of the "DOWN" branch that sleeps [n] times, on [n] PENDING
    answers, before the lookup that sees SUCCESS lets it return. *)
Theorem interface_shut_no_shut_polls_unbounded uuid mode r1 resp1 task_id r last n :
  accepted r1 resp1 ->
  task_id_of resp1 = inr task_id ->
  task_reply r (VStr "PENDING") ->
  task_reply last (VStr "SUCCESS") ->
  let tr := IoPut (interface_url uuid mode) (admin_status "UP") (Some r1)
            :: poll_trace (task_url task_id) (repeat r n) last in
  exec (interface_shut_no_shut uuid (VStr "DOWN") mode) tr (inr tt) /\
  List.length (sleeps tr) = n.
Proof.
  intros Hr Hid Hp Hl tr. split.
  - apply interface_shut_no_shut_DOWN_iff. exists (Some r1). eexists.
    split; [reflexivity |]. rewrite (decoded_accepted _ _ Hr).
    apply (poll_returns _ resp1 (poll_DOWN_turn_iff resp1)); try assumption.
    clear -Hp. induction n as [| n IH]; constructor; assumption.
  - unfold tr, poll_trace. change (sleeps (IoPut ?u ?j ?a :: ?t)) with (sleeps t).
    rewrite sleeps_app, length_app. cbn [sleeps flat_map List.length app].
    rewrite Nat.add_0_r. clear. induction n as [| n IH]; [reflexivity |].
    cbn. f_equal. exact IH.
Qed.


(** X16.  The two poll loops are one loop written twice: the third test
    of the "DOWN" loop ([!= "SUCCESS"] after [== "SUCCESS"] failed) never
    fails, so [poll_DOWN] and [poll_UP] have the same finished runs. *)
Theorem poll_loops_same_runs resp1 : same_runs (poll_DOWN resp1) (poll_UP resp1).
Proof.
  intros tr x. unfold poll_DOWN, poll_UP. rewrite !exec_while_True_iff.
  split; apply loop_run_ext; intros tr' o;
    rewrite poll_DOWN_turn_iff, poll_UP_turn_iff; reflexivity.
Qed.

(** ** More on [port_bounce] *)

Lemma port_bounce_iff mac mode tr x :
  exec (port_bounce mac mode) tr x <->
  (exists e, exec (get_client_details mac) tr (inl e) /\ x = inl e) \/
  (exists tr1 tr2 name parent,
     tr = tr1 ++ tr2 /\
     exec (get_client_details mac) tr1 (inr (name, parent)) /\
     ((exists e, exec (get_interface_details parent name) tr2 (inl e) /\ x = inl e) \/
      (exists tr3 tr4 id st,
         tr2 = tr3 ++ tr4 /\
         exec (get_interface_details parent name) tr3 (inr (id, st)) /\
         exec (interface_shut_no_shut id st "Deploy") tr4 x))).
Proof.
  unfold port_bounce. rewrite exec_py_bind_iff. split.
  - intros [H | (tr1 & tr2 & [name parent] & -> & H1 & H2)]; [left; exact H |].
    right. exists tr1, tr2, name, parent. split; [reflexivity |].
    split; [exact H1 |].
    apply exec_py_bind_iff in H2 as [H2 | (tr3 & tr4 & [id st] & -> & H2 & H3)];
      [left; exact H2 |].
    right. exists tr3, tr4, id, st. split; [reflexivity |].
    split; [exact H2 | apply exec_then_ret_tt; exact H3].
  - intros [H | (tr1 & tr2 & name & parent & -> & H1 & H2)]; [left; exact H |].
    right. exists tr1, tr2, (name, parent). split; [reflexivity |].
    split; [exact H1 |]. apply exec_py_bind_iff.
    destruct H2 as [H2 | (tr3 & tr4 & id & st & -> & H2 & H3)]; [left; exact H2 |].
    right. exists tr3, tr4, (id, st). split; [reflexivity |].
    split; [exact H2 | apply exec_then_ret_tt; exact H3].
Qed.

Lemma get_client_details_returns_inv mac tr y :
  exec (get_client_details mac) tr (inr y) ->
  exists r, tr = [IoGet (client_url mac) (Some r)].
Proof.
  intros H. apply get_client_details_iff in H as (ans & -> & H).
  destruct ans as [r |]; [eauto | discriminate].
Qed.

Lemma get_interface_details_returns_inv parent name tr y :
  exec (get_interface_details parent name) tr (inr y) ->
  exists r, tr = [IoGet (interface_name_url parent name) (Some r)].
Proof.
  intros H. apply get_interface_details_iff in H as (ans & -> & H).
  destruct ans as [r |]; [eauto | discriminate].
Qed.

Lemma get_client_details_puts mac tr x :
  exec (get_client_details mac) tr x -> puts tr = [].
Proof. intros H. apply get_client_details_iff in H as (ans & -> & _). reflexivity. Qed.

Lemma get_interface_details_puts parent name tr x :
  exec (get_interface_details parent name) tr x -> puts tr = [].
Proof.
  intros H. apply get_interface_details_iff in H as (ans & -> & _). reflexivity.
Qed.

(** X17.  [port_bounce] changes nothing before it has resolved the
    interface: a finished run that contains a PUT began with the two
    lookups, both answered and both returning, the status found was "DOWN"
    or "UP", and the rest of the run is [interface_shut_no_shut] on the
    interface id and status that the second lookup returned. *)
Theorem port_bounce_puts_after_lookups mac mode tr x :
  exec (port_bounce mac mode) tr x ->
  puts tr <> [] ->
  exists r1 r2 name parent id st rest,
    tr = IoGet (client_url mac) (Some r1)
         :: IoGet (interface_name_url parent name) (Some r2) :: rest /\
    exec (get_client_details mac) [IoGet (client_url mac) (Some r1)]
         (inr (name, parent)) /\
    exec (get_interface_details parent name)
         [IoGet (interface_name_url parent name) (Some r2)] (inr (id, st)) /\
    (st = VStr "DOWN" \/ st = VStr "UP") /\
    exec (interface_shut_no_shut id st "Deploy") rest x.
Proof.
  intros H Hputs.
  apply port_bounce_iff in H
    as [(e & H & _) | (tr1 & tr2 & name & parent & -> & H1 & H2)].
  { destruct Hputs. exact (get_client_details_puts _ _ _ H). }
  destruct (get_client_details_returns_inv _ _ _ H1) as (r1 & ->).
  destruct H2 as [(e & H2 & _) | (tr3 & tr4 & id & st & -> & H2 & H3)].
  { destruct Hputs. rewrite puts_app.
    rewrite (get_interface_details_puts _ _ _ _ H2). reflexivity. }
  destruct (get_interface_details_returns_inv _ _ _ _ H2) as (r2 & ->).
  exists r1, r2, name, parent, id, st, tr4.
  split; [reflexivity |]. split; [exact H1 |]. split; [exact H2 |].
  split; [| exact H3].
  destruct (interface_shut_no_shut_cases _ _ _ _ _ H3) as [[-> _] | [[-> _] | [-> _]]];
    [auto | auto |].
  destruct Hputs. reflexivity.
Qed.

(** X18.  [port_bounce] is the three stages in sequence and adds nothing
    of its own: an exception of the client lookup ends it at once, with
    no other call; after a client lookup that returned, an exception of
    the interface lookup ends it, still without a PUT; after both have
    returned, the outcome of [interface_shut_no_shut] (with "Deploy"),
    return or exception, is the outcome of [port_bounce]. *)
Theorem port_bounce_in_sequence mac mode :
  (forall tr e,
     exec (get_client_details mac) tr (inl e) ->
     exec (port_bounce mac mode) tr (inl e) /\ puts tr = []) /\
  (forall tr1 tr2 name parent e,
     exec (get_client_details mac) tr1 (inr (name, parent)) ->
     exec (get_interface_details parent name) tr2 (inl e) ->
     exec (port_bounce mac mode) (tr1 ++ tr2) (inl e) /\ puts (tr1 ++ tr2) = []) /\
  (forall tr1 tr2 tr3 name parent id st x,
     exec (get_client_details mac) tr1 (inr (name, parent)) ->
     exec (get_interface_details parent name) tr2 (inr (id, st)) ->
     exec (interface_shut_no_shut id st "Deploy") tr3 x ->
     exec (port_bounce mac mode) (tr1 ++ tr2 ++ tr3) x).
Proof.
  split; [| split].
  - intros tr e H. split; [| exact (get_client_details_puts _ _ _ H)].
    apply port_bounce_iff. left. exists e. auto.
  - intros tr1 tr2 name parent e H1 H2. split.
    + apply port_bounce_iff. right. exists tr1, tr2, name, parent.
      split; [reflexivity |]. split; [assumption |]. left. exists e. auto.
    + rewrite puts_app, (get_client_details_puts _ _ _ H1),
        (get_interface_details_puts _ _ _ _ H2). reflexivity.
  - intros tr1 tr2 tr3 name parent id st x H1 H2 H3.
    apply port_bounce_iff. right. exists tr1, (tr2 ++ tr3), name, parent.
    split; [reflexivity |]. split; [assumption |].
    right. exists tr2, tr3, id, st. auto.
Qed.

(** X19.  [port_bounce] on an interface whose status is neither "UP" nor
    "DOWN": after the two lookups have returned it returns at once,
    without a PUT, saying nothing of the status it did not know. *)
Theorem port_bounce_unknown_status mac mode tr1 tr2 name parent id st :
  exec (get_client_details mac) tr1 (inr (name, parent)) ->
  exec (get_interface_details parent name) tr2 (inr (id, st)) ->
  st <> VStr "DOWN" -> st <> VStr "UP" ->
  exec (port_bounce mac mode) (tr1 ++ tr2) (inr tt) /\ puts (tr1 ++ tr2) = [].
Proof.
  intros H1 H2 Hd Hu. split.
  - apply port_bounce_iff. right. exists tr1, tr2, name, parent.
    split; [reflexivity |]. split; [assumption |].
    right. exists tr2, [], id, st. rewrite app_nil_r.
    split; [reflexivity |]. split; [assumption |].
    apply interface_shut_no_shut_other_iff; auto.
  - rewrite puts_app, (get_client_details_puts _ _ _ H1),
      (get_interface_details_puts _ _ _ _ H2). reflexivity.
Qed.

Lemma interface_shut_no_shut_puts uuid st mode tr x :
  exec (interface_shut_no_shut uuid st mode) tr x ->
  (List.length (puts tr) <= 2)%nat /\
  Forall (fun put => fst put = interface_url uuid mode) (puts tr).
Proof.
  intros H.
  apply interface_shut_no_shut_cases in H as [[_ H] | [[_ H] | [-> _]]];
    [| | split; [cbn; lia | constructor]].
  - apply interface_shut_no_shut_DOWN_iff in H as (ans & tr' & -> & H).
    rewrite puts_cons_put.
    assert (Hp : puts tr' = []).
    { destruct (decoded ans) as [e | resp1]; [destruct H as [-> _]; reflexivity |].
      exact (poll_puts _ resp1 (poll_DOWN_turn_iff resp1) _ _ H). }
    rewrite Hp. split; [cbn; lia | repeat constructor].
  - apply interface_shut_no_shut_UP_iff in H as (ans & tr' & -> & H).
    rewrite puts_cons_put.
    destruct (decoded ans) as [e | resp1];
      [destruct H as [-> _]; split; [cbn; lia | repeat constructor] |].
    destruct H as [(e & H & _) | (polls & ans2 & -> & H & _)];
      [| rewrite puts_app];
      rewrite (poll_puts _ resp1 (poll_UP_turn_iff resp1) _ _ H);
      (split; [cbn; lia | repeat constructor]).
Qed.

(** X20.  Whatever [mode] it is called with, [port_bounce] makes at most
    two PUTs in a finished run, and each of them goes to an interface URL
    with [deploymentMode=Deploy]. *)
Theorem port_bounce_puts_deploy mac mode tr x :
  exec (port_bounce mac mode) tr x ->
  (List.length (puts tr) <= 2)%nat /\
  Forall (fun put => exists id, fst put = interface_url id "Deploy") (puts tr).
Proof.
  intros H.
  apply port_bounce_iff in H
    as [(e & H & _) | (tr1 & tr2 & name & parent & -> & H1 & H2)].
  { rewrite (get_client_details_puts _ _ _ H). split; [cbn; lia | constructor]. }
  rewrite puts_app, (get_client_details_puts _ _ _ H1). cbn [app].
  destruct H2 as [(e & H2 & _) | (tr3 & tr4 & id & st & -> & H2 & H3)].
  { rewrite (get_interface_details_puts _ _ _ _ H2). split; [cbn; lia | constructor]. }
  rewrite puts_app, (get_interface_details_puts _ _ _ _ H2). cbn [app].
  destruct (interface_shut_no_shut_puts _ _ _ _ _ H3) as [Hlen Hall].
  split; [exact Hlen |].
  eapply Forall_impl; [exact Hall |]. intros put Hput. exists id. exact Hput.
Qed.

(** ** [auth_session] *)

Lemma postedF_inv {R} (ot : itree' authE R) (tr : list posted) (x : R) :
  postedF ot tr x ->
  match ot with
  | RetF y => tr = [] /\ x = y
  | TauF t => postedF (observe t) tr x
  | VisF e k =>
      match e in authE X return (X -> itree authE R) -> Prop with
      | Post url auth => fun k =>
          exists ans tr', tr = (url, auth, ans) :: tr' /\ postedF (observe (k ans)) tr' x
      end k
  end.
Proof.
  destruct 1; cbn; eauto.
Qed.

(** X21.  [auth_session] makes one call, the POST of the token URL with
    the user name and password of the environment, and returns the
    [Token] member of the decoded body as it is; an HTTP error status
    ends it with the [HTTPError] of the response, an empty body with its
    own exception, and a body without [Token] with [KeyError]. *)
Theorem auth_session_spec :
  let auth_url := CCC_URL +:+ "/dna/system/api/v1/auth/token" in
  (forall tr x,
     auth_exec auth_session tr x ->
     exists ans, tr = [(auth_url, (CCC_UN, CCC_PW), ans)]) /\
  (forall r j token,
     accepted r j -> getitem j "Token" = inr token ->
     auth_exec auth_session [(auth_url, (CCC_UN, CCC_PW), Some r)] (inr token)) /\
  (forall r,
     is_http_error r = true ->
     auth_exec auth_session [(auth_url, (CCC_UN, CCC_PW), Some r)]
               (inl (HTTPError r))) /\
  (forall r,
     is_http_error r = false -> text r = "" ->
     auth_exec auth_session [(auth_url, (CCC_UN, CCC_PW), Some r)]
               (inl (Exception "Unable to obtain token."))) /\
  (forall r m,
     accepted r (VDict m) -> m !! "Token" = None ->
     auth_exec auth_session [(auth_url, (CCC_UN, CCC_PW), Some r)] (inl KeyError)).
Proof.
  intros auth_url.
  assert (Hrun : forall ans y,
            y = and_then (answered ans) (fun r =>
                and_then (if is_http_error r then inl (HTTPError r) else inr tt) (fun _ =>
                and_then (if String.eqb (text r) ""
                          then inl (Exception "Unable to obtain token.")
                          else inr tt) (fun _ =>
                and_then (match body r with
                          | Some j => inr j
                          | None => inl JSONDecodeError
                          end) (fun j => getitem j "Token")))) ->
            auth_exec auth_session [(auth_url, (CCC_UN, CCC_PW), ans)] y).
  { intros ans y ->. unfold auth_exec, auth_session. cbn.
    apply posted_post. cbn. apply posted_ret. }
  repeat split.
  - intros tr x H. apply postedF_inv in H. cbn in H.
    destruct H as (ans & tr' & -> & H). apply postedF_inv in H. cbn in H.
    destruct H as [-> _]. exists ans. reflexivity.
  - intros r j token (Hs & Ht & Hb) Htok. apply Hrun. cbn [answered and_then].
    apply String.eqb_neq in Ht. rewrite Hs, Ht, Hb. cbn [and_then]. auto.
  - intros r Hs. apply Hrun. cbn [answered and_then]. rewrite Hs. reflexivity.
  - intros r Hs Ht. apply Hrun. cbn [answered and_then]. rewrite Hs, Ht. reflexivity.
  - intros r m (Hs & Ht & Hb) Htok. apply Hrun. cbn [answered and_then].
    apply String.eqb_neq in Ht. rewrite Hs, Ht, Hb. cbn [and_then getitem].
    rewrite Htok. reflexivity.
Qed.
End Script.

(** ** The statements at the sample responses *)

Lemma accepted_ok_response j : accepted (ok_response j) j.
Proof. repeat split. discriminate. Defined.

Lemma interface_shut_no_shut_DOWN_witness :
  let url := interface_url demo_url demo_repr (VStr "if-uuid") "Deploy" in
  let tr := IoPut url (admin_status "UP") (Some put_reply)
            :: poll_trace (task_url demo_url demo_repr (VStr "task-1"))
                 [task_report "PENDING"] (task_report "SUCCESS") in
  exec (interface_shut_no_shut demo_url demo_repr (VStr "if-uuid") (VStr "DOWN") "Deploy")
       tr (inr tt) /\
  puts tr = [(url, admin_status "UP")].
Proof.
  intros url tr.
  destruct (interface_shut_no_shut_DOWN_spec demo_url demo_repr (VStr "if-uuid") "Deploy")
    as [Hputs Hreturns].
  assert (Hrun : exec (interface_shut_no_shut demo_url demo_repr
                         (VStr "if-uuid") (VStr "DOWN") "Deploy") tr (inr tt)).
  { apply Hreturns.
    exists put_reply, (obj [("response", obj [("taskId", VStr "task-1")])]),
           (VStr "task-1"), [task_report "PENDING"], (task_report "SUCCESS").
    split; [apply accepted_ok_response |].
    split; [vm_compute; reflexivity |].
    split; [constructor; [| constructor] |];
      [eexists; split; [apply accepted_ok_response | vm_compute; reflexivity] |].
    split; [eexists; split; [apply accepted_ok_response | vm_compute; reflexivity] |].
    reflexivity. }
  split; [exact Hrun | exact (proj1 (Hputs _ _ Hrun))].
Defined.

Lemma task_reply_report status : task_reply (task_report status) (VStr status).
Proof.
  eexists. split; [apply accepted_ok_response | vm_compute; reflexivity].
Defined.

Lemma interface_shut_no_shut_UP_witness :
  let url := interface_url demo_url demo_repr (VStr "if-uuid") "Deploy" in
  let tr := IoPut url (admin_status "DOWN") (Some put_reply)
            :: poll_trace (task_url demo_url demo_repr (VStr "task-1"))
                 [task_report "PENDING"] (task_report "SUCCESS")
            ++ [IoPut url (admin_status "UP") (Some put_reply)] in
  exec (interface_shut_no_shut demo_url demo_repr (VStr "if-uuid") (VStr "UP") "Deploy")
       tr (inr tt) /\
  puts tr = [(url, admin_status "DOWN"); (url, admin_status "UP")].
Proof.
  intros url tr.
  destruct (interface_shut_no_shut_UP_spec demo_url demo_repr (VStr "if-uuid") "Deploy")
    as [Hputs Hreturns].
  assert (Hrun : exec (interface_shut_no_shut demo_url demo_repr
                         (VStr "if-uuid") (VStr "UP") "Deploy") tr (inr tt)).
  { apply Hreturns.
    exists put_reply, (obj [("response", obj [("taskId", VStr "task-1")])]),
           (VStr "task-1"), [task_report "PENDING"], (task_report "SUCCESS"), put_reply.
    split; [| left; split; [reflexivity | discriminate]].
    split; [apply accepted_ok_response |].
    split; [vm_compute; reflexivity |].
    split; [constructor; [apply task_reply_report | constructor] |].
    split; [apply task_reply_report | reflexivity]. }
  split; [exact Hrun | reflexivity].
Defined.

Lemma interface_shut_no_shut_UP_http_error_witness :
  let url := interface_url demo_url demo_repr (VStr "if-uuid") "Deploy" in
  let calls r2 :=
    IoPut url (admin_status "DOWN") (Some put_reply)
    :: poll_trace (task_url demo_url demo_repr (VStr "task-1"))
         [task_report "PENDING"] (task_report "SUCCESS")
    ++ [IoPut url (admin_status "UP") (Some r2)] in
  let bounce :=
    interface_shut_no_shut demo_url demo_repr (VStr "if-uuid") (VStr "UP") "Deploy" in
  (is_http_error server_error_reply = true /\
   contains "No change in setting" (text server_error_reply) = false /\
   exec bounce (calls server_error_reply) (inl (HTTPError server_error_reply))) /\
  (is_http_error no_change_reply = true /\
   contains "No change in setting" (text no_change_reply) = true /\
   exec bounce (calls no_change_reply) (inr tt)).
Proof.
  intros url calls bounce. split.
  - split; [reflexivity |]. split; [reflexivity |].
    refine (proj1 (interface_shut_no_shut_UP_http_error demo_url demo_repr
                     (VStr "if-uuid") "Deploy" server_error_reply eq_refl)
              put_reply (obj [("response", obj [("taskId", VStr "task-1")])])
              (VStr "task-1") [task_report "PENDING"] (task_report "SUCCESS")
              _ _ _ _).
    + apply accepted_ok_response.
    + vm_compute; reflexivity.
    + constructor; [apply task_reply_report | constructor].
    + apply task_reply_report.
  - split; [reflexivity |]. split; [reflexivity |].
    refine (proj1 (interface_shut_no_shut_UP_http_error demo_url demo_repr
                     (VStr "if-uuid") "Deploy" no_change_reply eq_refl)
              put_reply (obj [("response", obj [("taskId", VStr "task-1")])])
              (VStr "task-1") [task_report "PENDING"] (task_report "SUCCESS")
              _ _ _ _).
    + apply accepted_ok_response.
    + vm_compute; reflexivity.
    + constructor; [apply task_reply_report | constructor].
    + apply task_reply_report.
Defined.

Lemma interface_shut_no_shut_other_status_witness :
  VStr "TESTING" <> VStr "DOWN" /\ VStr "TESTING" <> VStr "UP" /\
  exec (interface_shut_no_shut demo_url demo_repr (VStr "if-uuid") (VStr "TESTING") "Deploy")
       [] (inr tt).
Proof.
  split; [discriminate |]. split; [discriminate |].
  apply (interface_shut_no_shut_other_status demo_url demo_repr
           (VStr "if-uuid") (VStr "TESTING") "Deploy"); discriminate.
Defined.

Lemma poll_loop_statuses_witness :
  let resp1 := obj [("response", obj [("taskId", VStr "task-1")])] in
  let url := task_url demo_url demo_repr (VStr "task-1") in
  exec (poll_DOWN demo_url demo_repr resp1)
       [IoGet url (Some (task_report "PENDING")); IoSleep 1;
        IoGet url (Some (task_report "PENDING")); IoSleep 1;
        IoGet url (Some (task_report "SUCCESS"))] (inr tt) /\
  exec (poll_DOWN demo_url demo_repr resp1)
       [IoGet url (Some (task_report "PENDING")); IoSleep 1;
        IoGet url (Some (task_report "FAILURE"))] (inl task_failed).
Proof.
  intros resp1 url.
  destruct (poll_loop_statuses demo_url demo_repr resp1 (VStr "task-1")
              (task_report "PENDING") (task_report "PENDING") (task_report "SUCCESS")
              [task_report "PENDING"] (task_report "FAILURE") (VStr "FAILURE"))
    as [(Hdown & _ & _) (Hfail & _)].
  - vm_compute; reflexivity.
  - apply task_reply_report.
  - apply task_reply_report.
  - apply task_reply_report.
  - constructor; [apply task_reply_report | constructor].
  - apply task_reply_report.
  - discriminate.
  - discriminate.
  - split; [exact Hdown | exact Hfail].
Defined.

Lemma get_interface_details_witness :
  let run r :=
    exec (get_interface_details demo_url demo_repr
            (VStr "switch-uuid") (VStr "GigabitEthernet1/0/3"))
         [IoGet (interface_name_url demo_url demo_repr
                   (VStr "switch-uuid") (VStr "GigabitEthernet1/0/3"))
                (Some r)] in
  run interface_reply_without_id (inl interface_not_located) /\
  run interface_reply_empty_status (inl interface_not_located) /\
  run interface_reply_without_response (inl interface_not_located) /\
  run (interface_reply "DOWN") (inr (VStr "if-uuid", VStr "DOWN")).
Proof.
  intros run. split; [| split; [| split]].
  - refine (proj1 (get_interface_details_spec demo_url demo_repr
                     (VStr "switch-uuid") (VStr "GigabitEthernet1/0/3")
                     interface_reply_without_id
                     (list_to_map [("response", obj [("adminStatus", VStr "UP")])])
                     _ _) _).
    + apply accepted_ok_response.
    + vm_compute. exact I.
    + left. vm_compute; reflexivity.
  - refine (proj1 (get_interface_details_spec demo_url demo_repr
                     (VStr "switch-uuid") (VStr "GigabitEthernet1/0/3")
                     interface_reply_empty_status
                     (list_to_map [("response", obj [("id", VStr "if-uuid");
                                                     ("adminStatus", VStr "")])])
                     _ _) _).
    + apply accepted_ok_response.
    + vm_compute. exact I.
    + right. vm_compute; reflexivity.
  - refine (proj1 (get_interface_details_spec demo_url demo_repr
                     (VStr "switch-uuid") (VStr "GigabitEthernet1/0/3")
                     interface_reply_without_response
                     (list_to_map [])
                     _ _) _).
    + apply accepted_ok_response.
    + vm_compute. exact I.
    + left. vm_compute; reflexivity.
  - refine (proj1 (proj2 (get_interface_details_spec demo_url demo_repr
                     (VStr "switch-uuid") (VStr "GigabitEthernet1/0/3")
                     (interface_reply "DOWN")
                     (list_to_map [("response", obj [("id", VStr "if-uuid");
                                                     ("adminStatus", VStr "DOWN")])])
                     _ _)) (VStr "if-uuid") (VStr "DOWN") _ _ _ _).
    + apply accepted_ok_response.
    + vm_compute. exact I.
    + vm_compute; reflexivity.
    + vm_compute; reflexivity.
    + reflexivity.
    + reflexivity.
Defined.

(** C9 as it is stated fails at the body [{"response": null}].  The
    response passes the checks and its [response] member is [null], which
    holds no [id] and no [adminStatus]; [.get("response", {})] returns that
    [None] (the default is for a missing key only), and [None.get] ends
    the run with [AttributeError], not with the resolution failure. *)
Lemma get_interface_details_null_response :
  let run :=
    exec (get_interface_details demo_url demo_repr
            (VStr "switch-uuid") (VStr "GigabitEthernet1/0/3"))
         [IoGet (interface_name_url demo_url demo_repr
                   (VStr "switch-uuid") (VStr "GigabitEthernet1/0/3"))
                (Some interface_null_reply)] in
  accepted interface_null_reply (obj [("response", VNone)]) /\
  get (obj [("response", VNone)]) "response" empty_dict = inr VNone /\
  run (inl AttributeError) /\
  ~ run (inl interface_not_located) /\
  (forall x, run x -> x = inl AttributeError).
Proof.
  intros run.
  assert (Hrun : run (inl AttributeError)).
  { apply get_interface_details_iff. eexists.
    split; [reflexivity | vm_compute; reflexivity]. }
  split; [apply accepted_ok_response |].
  split; [vm_compute; reflexivity |].
  split; [exact Hrun |]. split.
  - intros H. destruct (exec_det _ _ _ _ _ H Hrun eq_refl) as [_ [=]].
  - intros x H. exact (proj2 (exec_det _ _ _ _ _ H Hrun eq_refl)).
Qed.

Lemma get_client_details_connected_device_witness :
  exec (get_client_details demo_url demo_mac)
       [IoGet (client_url demo_url demo_mac) (Some client_connected)]
       (inr (VStr "GigabitEthernet1/0/3", VStr "switch-uuid")).
Proof.
  apply (get_client_details_connected_device demo_url demo_mac client_connected
           (list_to_map
              [("detail", obj [("port", VStr "GigabitEthernet1/0/3");
                               ("connectedDevice",
                                VList [obj [("id", VStr "switch-uuid")]])]);
               ("topology", two_nodes)])
           (list_to_map [("port", VStr "GigabitEthernet1/0/3");
                         ("connectedDevice", VList [obj [("id", VStr "switch-uuid")]])])
           (VStr "GigabitEthernet1/0/3")
           (list_to_map [("id", VStr "switch-uuid")]) []
           (VStr "switch-uuid")).
  - apply accepted_ok_response.
  - vm_compute; reflexivity.
  - vm_compute; reflexivity.
  - vm_compute; reflexivity.
  - vm_compute; reflexivity.
  - reflexivity.
Defined.

(** ** The further statements at the sample responses *)

Ltac sample_lookup lemma :=
  apply lemma; eexists; split; [reflexivity | vm_compute; reflexivity].

Lemma demo_client_run :
  exec (get_client_details demo_url demo_mac)
       [IoGet (client_url demo_url demo_mac) (Some client_connected)]
       (inr (VStr "GigabitEthernet1/0/3", VStr "switch-uuid")).
Proof. sample_lookup get_client_details_iff. Defined.

Lemma demo_interface_run_DOWN :
  exec (get_interface_details demo_url demo_repr
          (VStr "switch-uuid") (VStr "GigabitEthernet1/0/3"))
       [IoGet (interface_name_url demo_url demo_repr
                 (VStr "switch-uuid") (VStr "GigabitEthernet1/0/3"))
              (Some (interface_reply "DOWN"))]
       (inr (VStr "if-uuid", VStr "DOWN")).
Proof. sample_lookup get_interface_details_iff. Defined.

Lemma demo_interface_run_TESTING :
  exec (get_interface_details demo_url demo_repr
          (VStr "switch-uuid") (VStr "GigabitEthernet1/0/3"))
       [IoGet (interface_name_url demo_url demo_repr
                 (VStr "switch-uuid") (VStr "GigabitEthernet1/0/3"))
              (Some (interface_reply "TESTING"))]
       (inr (VStr "if-uuid", VStr "TESTING")).
Proof. sample_lookup get_interface_details_iff. Defined.

Lemma readers_make_one_get_witness :
  exists ans,
    [IoGet (client_url demo_url demo_mac) (Some client_connected)]
    = [IoGet (client_url demo_url demo_mac) ans] /\
    request_checked ans
      (inr (VStr "GigabitEthernet1/0/3", VStr "switch-uuid") : result (value * value)).
Proof.
  exact (proj1 (readers_make_one_get demo_url demo_repr) demo_mac _ _ demo_client_run).
Defined.

Lemma lookup_task_returns_body_witness :
  exec (lookup_task demo_url demo_repr (VStr "task-1"))
       [IoGet (task_url demo_url demo_repr (VStr "task-1")) (Some (ok_response VNone))]
       (inr VNone).
Proof.
  apply (lookup_task_returns_body demo_url demo_repr (VStr "task-1")).
  exists (ok_response VNone). split; [reflexivity | apply accepted_ok_response].
Defined.

Lemma get_client_details_port_required_witness :
  exec (get_client_details demo_url demo_mac)
       [IoGet (client_url demo_url demo_mac) (Some client_without_port)] (inl KeyError).
Proof.
  apply (get_client_details_port_required demo_url demo_mac client_without_port
           (list_to_map
              [("detail", obj [("connectedDevice",
                                VList [obj [("id", VStr "switch-uuid")]])]);
               ("topology", two_nodes)])).
  - apply accepted_ok_response.
  - right. eexists. split; vm_compute; reflexivity.
Defined.

Lemma get_client_details_fallback_spec_witness :
  exec (get_client_details demo_url demo_mac)
       [IoGet (client_url demo_url demo_mac) (Some (client_with_empty_id two_nodes))]
       (inr (VStr "GigabitEthernet1/0/3", VStr "switch-uuid")) /\
  exec (get_client_details demo_url demo_mac)
       [IoGet (client_url demo_url demo_mac) (Some (client_with_empty_id one_node))]
       (inl resolution_failed).
Proof.
  split.
  - refine (proj1 (get_client_details_fallback_spec demo_url demo_mac
                     (client_with_empty_id two_nodes)
                     (list_to_map
                        [("detail", obj [("port", VStr "GigabitEthernet1/0/3");
                                         ("connectedDevice",
                                          VList [obj [("id", VStr "")]])]);
                         ("topology", two_nodes)])
                     (list_to_map [("port", VStr "GigabitEthernet1/0/3");
                                   ("connectedDevice", VList [obj [("id", VStr "")]])])
                     (VStr "GigabitEthernet1/0/3")
                     (list_to_map [("id", VStr "")]) [] (VStr "")
                     _ _ _ _ _ _)
                  (list_to_map
                     [("nodes", VList [obj [("id", VStr "client-uuid")];
                                       obj [("id", VStr "switch-uuid")]])])
                  (obj [("id", VStr "client-uuid")])
                  (list_to_map [("id", VStr "switch-uuid")]) []
                  (VStr "switch-uuid") _ _ _);
      first [apply accepted_ok_response | vm_compute; reflexivity].
  - refine (proj1 (proj2 (get_client_details_fallback_spec demo_url demo_mac
                     (client_with_empty_id one_node)
                     (list_to_map
                        [("detail", obj [("port", VStr "GigabitEthernet1/0/3");
                                         ("connectedDevice",
                                          VList [obj [("id", VStr "")]])]);
                         ("topology", one_node)])
                     (list_to_map [("port", VStr "GigabitEthernet1/0/3");
                                   ("connectedDevice", VList [obj [("id", VStr "")]])])
                     (VStr "GigabitEthernet1/0/3")
                     (list_to_map [("id", VStr "")]) [] (VStr "")
                     _ _ _ _ _ _))
                  (list_to_map [("nodes", VList [obj [("id", VStr "client-uuid")]])])
                  [obj [("id", VStr "client-uuid")]] _ _ _);
      first [apply accepted_ok_response | vm_compute; reflexivity | cbn; lia].
Defined.

Lemma get_client_details_fallback_empty_witness :
  exec (get_client_details demo_url demo_mac)
       [IoGet (client_url demo_url demo_mac)
              (Some (client_with_empty_id nodes_without_id))]
       (inr (VStr "GigabitEthernet1/0/3", empty_dict)).
Proof.
  refine (proj1 (get_client_details_fallback_empty demo_url demo_mac
                   (client_with_empty_id nodes_without_id)
                   (list_to_map
                      [("detail", obj [("port", VStr "GigabitEthernet1/0/3");
                                       ("connectedDevice",
                                        VList [obj [("id", VStr "")]])]);
                       ("topology", nodes_without_id)])
                   (list_to_map [("port", VStr "GigabitEthernet1/0/3");
                                 ("connectedDevice", VList [obj [("id", VStr "")]])])
                   (VStr "GigabitEthernet1/0/3")
                   (list_to_map [("id", VStr "")]) [] (VStr "")
                   (list_to_map
                      [("nodes", VList [obj [("id", VStr "client-uuid")]; obj []])])
                   (obj [("id", VStr "client-uuid")]) (list_to_map []) []
                   _ _ _ _ _ _ _ _ _));
    first [apply accepted_ok_response | vm_compute; reflexivity].
Defined.

Lemma get_interface_details_returns_witness :
  truthy (VStr "if-uuid") = true /\ truthy (VStr "DOWN") = true.
Proof.
  destruct (get_interface_details_returns demo_url demo_repr
              (VStr "switch-uuid") (VStr "GigabitEthernet1/0/3") _
              (VStr "if-uuid") (VStr "DOWN") demo_interface_run_DOWN)
    as (Hid & Hst & _).
  split; assumption.
Defined.

Lemma get_interface_details_not_an_object_witness :
  exec (get_interface_details demo_url demo_repr
          (VStr "switch-uuid") (VStr "GigabitEthernet1/0/3"))
       [IoGet (interface_name_url demo_url demo_repr
                 (VStr "switch-uuid") (VStr "GigabitEthernet1/0/3"))
              (Some interface_null_reply)]
       (inl AttributeError).
Proof.
  apply (get_interface_details_not_an_object demo_url demo_repr
           (VStr "switch-uuid") (VStr "GigabitEthernet1/0/3") interface_null_reply
           (obj [("response", VNone)])).
  - apply accepted_ok_response.
  - right. exists (list_to_map [("response", VNone)]), VNone.
    split; [reflexivity |]. split; [vm_compute; reflexivity | reflexivity].
Defined.


Lemma demo_up_run :
  exec (interface_shut_no_shut demo_url demo_repr (VStr "if-uuid") (VStr "UP") "Preview")
       (demo_up_trace demo_url demo_repr "Preview") (inr tt).
Proof. run_trace. Defined.

Lemma demo_down_run :
  exec (interface_shut_no_shut demo_url demo_repr (VStr "if-uuid") (VStr "DOWN") "Deploy")
       [IoPut (interface_url demo_url demo_repr (VStr "if-uuid") "Deploy")
              (admin_status "UP") (Some put_reply);
        IoGet (task_url demo_url demo_repr (VStr "task-1"))
              (Some (task_report "SUCCESS"))]
       (inr tt).
Proof. run_trace. Defined.

Lemma demo_bounce_run :
  exec (port_bounce demo_url demo_repr demo_mac "Preview")
       (demo_trace demo_url demo_repr) (inr tt).
Proof. run_trace. Defined.

Lemma interface_shut_no_shut_mode_verbatim_witness :
  Forall (fun put => fst put = interface_url demo_url demo_repr (VStr "if-uuid") "Preview")
         (puts (demo_up_trace demo_url demo_repr "Preview")).
Proof.
  exact (proj1 (interface_shut_no_shut_mode_verbatim demo_url demo_repr (VStr "if-uuid"))
           (VStr "UP") "Preview" _ _ demo_up_run).
Defined.

Lemma interface_shut_no_shut_first_put_rejected_witness :
  is_http_error no_change_reply = true /\
  contains "No change in setting" (text no_change_reply) = true /\
  exec (interface_shut_no_shut demo_url demo_repr (VStr "if-uuid") (VStr "UP") "Deploy")
       [IoPut (interface_url demo_url demo_repr (VStr "if-uuid") "Deploy")
              (admin_status "DOWN") (Some no_change_reply)]
       (inl (HTTPError no_change_reply)) /\
  (@nil io = [] /\
   (inl (HTTPError no_change_reply) : result unit) = inl (HTTPError no_change_reply)).
Proof.
  assert (Hrun : exec (interface_shut_no_shut demo_url demo_repr
                         (VStr "if-uuid") (VStr "UP") "Deploy")
                      [IoPut (interface_url demo_url demo_repr (VStr "if-uuid") "Deploy")
                             (admin_status "DOWN") (Some no_change_reply)]
                      (inl (HTTPError no_change_reply)))
    by run_trace.
  split; [reflexivity |]. split; [reflexivity |]. split; [exact Hrun |].
  exact (interface_shut_no_shut_first_put_rejected demo_url demo_repr
           (VStr "if-uuid") (VStr "UP") "Deploy" _ _ no_change_reply [] _
           Hrun eq_refl).
Defined.

Lemma interface_shut_no_shut_no_task_id_witness :
  exec (interface_shut_no_shut demo_url demo_repr (VStr "if-uuid") (VStr "UP") "Deploy")
       [IoPut (interface_url demo_url demo_repr (VStr "if-uuid") "Deploy")
              (admin_status "DOWN") (Some put_reply_without_task)]
       (inl KeyError).
Proof.
  apply (interface_shut_no_shut_no_task_id demo_url demo_repr (VStr "if-uuid") "Deploy"
           put_reply_without_task (obj [("response", obj [])]) KeyError).
  - apply accepted_ok_response.
  - vm_compute; reflexivity.
Defined.

Lemma interface_shut_no_shut_task_failed_witness :
  exec (interface_shut_no_shut demo_url demo_repr (VStr "if-uuid") (VStr "UP") "Deploy")
       (IoPut (interface_url demo_url demo_repr (VStr "if-uuid") "Deploy")
              (admin_status "DOWN") (Some put_reply)
        :: poll_trace (task_url demo_url demo_repr (VStr "task-1"))
             [task_report "PENDING"] (task_report "FAILURE"))
       (inl task_failed).
Proof.
  apply (interface_shut_no_shut_task_failed demo_url demo_repr (VStr "if-uuid") "Deploy"
           put_reply (obj [("response", obj [("taskId", VStr "task-1")])])
           (VStr "task-1") [task_report "PENDING"] (task_report "FAILURE")
           (VStr "FAILURE")).
  - apply accepted_ok_response.
  - vm_compute; reflexivity.
  - constructor; [apply task_reply_report | constructor].
  - apply task_reply_report.
  - discriminate.
  - discriminate.
Defined.

Lemma interface_shut_no_shut_lookup_failed_witness :
  exec (interface_shut_no_shut demo_url demo_repr (VStr "if-uuid") (VStr "UP") "Deploy")
       [IoPut (interface_url demo_url demo_repr (VStr "if-uuid") "Deploy")
              (admin_status "DOWN") (Some put_reply);
        IoGet (task_url demo_url demo_repr (VStr "task-1")) (Some (task_report "PENDING"));
        IoSleep 1;
        IoGet (task_url demo_url demo_repr (VStr "task-1")) None]
       (inl RequestException).
Proof.
  apply (interface_shut_no_shut_lookup_failed demo_url demo_repr (VStr "if-uuid") "Deploy"
           put_reply (obj [("response", obj [("taskId", VStr "task-1")])])
           (VStr "task-1") [task_report "PENDING"] None RequestException).
  - apply accepted_ok_response.
  - vm_compute; reflexivity.
  - constructor; [apply task_reply_report | constructor].
  - left. reflexivity.
Defined.

Lemma interface_shut_no_shut_sleeps_one_second_witness :
  Forall (eq 1) (sleeps (demo_up_trace demo_url demo_repr "Preview")).
Proof.
  exact (interface_shut_no_shut_sleeps_one_second demo_url demo_repr
           (VStr "if-uuid") (VStr "UP") "Preview" _ _ demo_up_run).
Defined.

Lemma interface_shut_no_shut_polls_unbounded_witness :
  let tr := IoPut (interface_url demo_url demo_repr (VStr "if-uuid") "Deploy")
                  (admin_status "UP") (Some put_reply)
            :: poll_trace (task_url demo_url demo_repr (VStr "task-1"))
                 (repeat (task_report "PENDING") 3) (task_report "SUCCESS") in
  exec (interface_shut_no_shut demo_url demo_repr (VStr "if-uuid") (VStr "DOWN") "Deploy")
       tr (inr tt) /\
  List.length (sleeps tr) = 3%nat.
Proof.
  apply (interface_shut_no_shut_polls_unbounded demo_url demo_repr (VStr "if-uuid")
           "Deploy" put_reply (obj [("response", obj [("taskId", VStr "task-1")])])
           (VStr "task-1") (task_report "PENDING") (task_report "SUCCESS") 3).
  - apply accepted_ok_response.
  - vm_compute; reflexivity.
  - apply task_reply_report.
  - apply task_reply_report.
Defined.


Lemma port_bounce_puts_after_lookups_witness :
  exists r1 r2 name parent id st rest,
    demo_trace demo_url demo_repr
    = IoGet (client_url demo_url demo_mac) (Some r1)
      :: IoGet (interface_name_url demo_url demo_repr parent name) (Some r2) :: rest /\
    exec (get_client_details demo_url demo_mac)
         [IoGet (client_url demo_url demo_mac) (Some r1)] (inr (name, parent)) /\
    exec (get_interface_details demo_url demo_repr parent name)
         [IoGet (interface_name_url demo_url demo_repr parent name) (Some r2)]
         (inr (id, st)) /\
    (st = VStr "DOWN" \/ st = VStr "UP") /\
    exec (interface_shut_no_shut demo_url demo_repr id st "Deploy") rest (inr tt).
Proof.
  apply (port_bounce_puts_after_lookups demo_url demo_repr demo_mac "Preview"
           (demo_trace demo_url demo_repr) (inr tt) demo_bounce_run).
  discriminate.
Defined.

Lemma port_bounce_in_sequence_witness :
  exec (port_bounce demo_url demo_repr demo_mac "Preview")
       ([IoGet (client_url demo_url demo_mac) (Some client_connected)]
        ++ [IoGet (interface_name_url demo_url demo_repr
                     (VStr "switch-uuid") (VStr "GigabitEthernet1/0/3"))
                  (Some (interface_reply "DOWN"))]
        ++ [IoPut (interface_url demo_url demo_repr (VStr "if-uuid") "Deploy")
                  (admin_status "UP") (Some put_reply);
            IoGet (task_url demo_url demo_repr (VStr "task-1"))
                  (Some (task_report "SUCCESS"))])
       (inr tt).
Proof.
  exact (proj2 (proj2 (port_bounce_in_sequence demo_url demo_repr demo_mac "Preview"))
           _ _ _ _ _ _ _ _ demo_client_run demo_interface_run_DOWN demo_down_run).
Defined.

Lemma port_bounce_unknown_status_witness :
  exec (port_bounce demo_url demo_repr demo_mac "Deploy")
       ([IoGet (client_url demo_url demo_mac) (Some client_connected)]
        ++ [IoGet (interface_name_url demo_url demo_repr
                     (VStr "switch-uuid") (VStr "GigabitEthernet1/0/3"))
                  (Some (interface_reply "TESTING"))])
       (inr tt).
Proof.
  refine (proj1 (port_bounce_unknown_status demo_url demo_repr demo_mac "Deploy"
                   _ _ _ _ _ _ demo_client_run demo_interface_run_TESTING _ _));
    discriminate.
Defined.

Lemma port_bounce_puts_deploy_witness :
  (List.length (puts (demo_trace demo_url demo_repr)) <= 2)%nat /\
  Forall (fun put => exists id, fst put = interface_url demo_url demo_repr id "Deploy")
         (puts (demo_trace demo_url demo_repr)).
Proof.
  exact (port_bounce_puts_deploy demo_url demo_repr demo_mac "Preview" _ _
           demo_bounce_run).
Defined.

Lemma auth_session_spec_witness :
  auth_exec (auth_session demo_url "admin" "secret")
            [(demo_url +:+ "/dna/system/api/v1/auth/token", ("admin", "secret"),
              Some token_reply)]
            (inr (VStr "eyJ0eXAi")).
Proof.
  apply (proj1 (proj2 (auth_session_spec demo_url "admin" "secret"))
           token_reply (obj [("Token", VStr "eyJ0eXAi")]) (VStr "eyJ0eXAi")).
  - apply accepted_ok_response.
  - vm_compute; reflexivity.
Defined.
